(** * github_cloner: a shallow embedding of [src/github_cloner.py]

    The development follows the source file from top to bottom:
    the GraphQL data the enumerator reads, [graphql_query],
    [fetch_all_repositories], [clone_or_update_repo], [print_summary],
    the semaphore-gated [gather] of [run], [main], the compilation of
    the file and the [__main__] guard.  Everything the script consumes from outside (the HTTP
    transport, the filesystem, the process layer, and two functions of
    the Python runtime) is gathered in one record, [Env]. *)

From Stdlib Require Import List String Ascii ZArith Bool Arith Lia.
From Stdlib.Strings Require Import Byte.
From Stdlib Require Import DecimalString DecimalNat.
Import ListNotations.
Open Scope string_scope.
Open Scope list_scope.
Open Scope nat_scope.

(** ** Python values used by the script *)

(** [str(n)] for an integer, as an f-string renders it. *)
Definition str_of_Z (z : Z) : string := NilZero.string_of_int (Z.to_int z).

(** An [Exception] instance; [str(e)] is its message. *)
Inductive exn : Type :=
| Exception (msg : string).

Definition str_of_exn (e : exn) : string :=
  match e with Exception msg => msg end.

(** What a call produces: a value, a raised [Exception], or nothing at
    all within the iterations allowed ([while True] loops are unrolled
    up to a bound, and a schedule may stop short of completion). *)
Inductive outcome (A : Type) : Type :=
| Return (a : A)
| Raise (e : exn)
| Hang.
Arguments Return {A} a.
Arguments Raise {A} e.
Arguments Hang {A}.

(** ** The GraphQL data model (the selection set of [query]) *)

Definition cursor := string.

Record repo : Type := mkRepo {
  name : string;
  nameWithOwner : string;
  sshUrl : string;
  isPrivate : bool;
  owner_login : string
}.

Record pageInfo : Type := mkPageInfo {
  hasNextPage : bool;
  endCursor : option cursor
}.

(** [repositories { nodes {...} pageInfo {...} }] *)
Record connection : Type := mkConnection {
  nodes : list repo;
  page_info : pageInfo
}.

(** One entry of [organizations { nodes { login repositories {...} } }] *)
Record organization : Type := mkOrganization {
  org_login : string;
  org_repositories : connection
}.

Record viewer : Type := mkViewer {
  login : string;
  repositories : connection;
  organizations : list organization
}.

(** A decoded JSON body.  [errors] is the entry of that name when the
    body has one (rendered as [str] renders it); [data] is
    [data['data']['viewer']]. *)
Record payload : Type := mkPayload {
  errors : option string;
  data : viewer
}.

(** [resp_status] is [response.status]; [json] is what
    [await response.json()] gives, the decoded body or the exception
    raised on a body that is not JSON. *)
Record response : Type := mkResponse {
  resp_status : Z;
  json : exn + payload
}.

(** The [variables] dict of a request, in insertion order; a Python
    [None] is [None]. *)
Definition variables := list (string * option cursor).

(** The JSON posted: the fixed [query] document is left out, the
    [variables] entry is there only when the dict is non-empty. *)
Record request : Type := mkRequest {
  req_variables : option variables
}.

(** ** The process layer and the filesystem *)

(** The arguments of [asyncio.create_subprocess_exec] and its [cwd]. *)
Record command : Type := mkCommand {
  argv : list string;
  cwd : option string
}.

(** A process that ran to its end: [returncode] and the two captured
    pipes, as bytes. *)
Record completed : Type := mkCompleted {
  returncode : Z;
  stdout : list byte;
  stderr : list byte
}.

(** ** The environment

    [W] is the state of the outside world.  [post] is
    [session.post(...)]; it may raise (a connection error, a
    timeout).  [path_exists] is [Path.exists()]: it answers, or raises
    the [OSError] of a [stat] that fails for another reason than the
    path being absent (a directory that may not be searched).  [spawn]
    is [create_subprocess_exec] followed by [communicate()]; it may
    raise (executable missing).  [mkdir] is
    [Path.mkdir(parents=True, exist_ok=True)].  [joinpath] is
    [pathlib]'s [/] followed by [str]; [codec_error] is the message of
    the [UnicodeDecodeError] that [bytes.decode()] raises on the given
    bytes. *)
Record Env (W : Type) : Type := mkEnv {
  post : W -> request -> (exn + response) * W;
  path_exists : W -> string -> exn + bool;
  spawn : W -> command -> (exn + completed) * W;
  mkdir : W -> string -> (exn + unit) * W;
  joinpath : string -> string -> string;
  codec_error : list byte -> string
}.
Arguments post {W} _ _ _.
Arguments path_exists {W} _ _ _.
Arguments spawn {W} _ _ _.
Arguments mkdir {W} _ _ _.
Arguments joinpath {W} _ _ _.
Arguments codec_error {W} _ _.

(** ** State threaded through the cloner

    [username] is [self.username]; [requests] and [spawned] record, in
    order, every request posted and every command handed to the
    process layer, each with what came back. *)
Record state (W : Type) : Type := mkState {
  world : W;
  username : option string;
  requests : list (request * (exn + response));
  spawned : list (command * (exn + completed))
}.
Arguments mkState {W} _ _ _ _.
Arguments world {W} _.
Arguments username {W} _.
Arguments requests {W} _.
Arguments spawned {W} _.

Definition initial_state {W : Type} (w : W) : state W :=
  mkState w None [] [].

(** A small state-and-exception monad. *)
Definition M (W A : Type) : Type := state W -> outcome A * state W.

Definition ret {W A : Type} (a : A) : M W A := fun s => (Return a, s).

Definition raise {W A : Type} (e : exn) : M W A := fun s => (Raise e, s).

Definition hang {W A : Type} : M W A := fun s => (Hang, s).

Definition bind {W A B : Type} (m : M W A) (k : A -> M W B) : M W B :=
  fun s =>
    match m s with
    | (Return a, s') => k a s'
    | (Raise e, s') => (Raise e, s')
    | (Hang, s') => (Hang, s')
    end.

Declare Scope cloner_scope.
Delimit Scope cloner_scope with cloner.
Notation "x <- m ;; k" := (bind m (fun x => k))
  (at level 61, m at next level, right associativity) : cloner_scope.
Notation "m ;;; k" := (bind m (fun _ => k))
  (at level 61, right associativity) : cloner_scope.
Open Scope cloner_scope.

(** ** The insertion-ordered dict of the deduplication step *)

Module Dict.

Definition t (V : Type) : Type := list (string * V).

(** [d[k] = v]: an existing key keeps its place and takes the new
    value, a new key goes to the end. *)
Fixpoint set {V : Type} (k : string) (v : V) (d : t V) : t V :=
  match d with
  | [] => [(k, v)]
  | (k', v') :: d' =>
      if String.eqb k k' then (k, v) :: d' else (k', v') :: set k v d'
  end.

Definition keys {V : Type} (d : t V) : list string := map fst d.

Definition values {V : Type} (d : t V) : list V := map snd d.

Fixpoint get {V : Type} (k : string) (d : t V) : option V :=
  match d with
  | [] => None
  | (k', v') :: d' => if String.eqb k k' then Some v' else get k d'
  end.

End Dict.

(** ** The enumerator *)

Section Enumerator.

Context {W : Type} (E : Env W).

(** [session.post(..., json=payload)], recorded in [requests]. *)
Definition session_post (rq : request) : M W (exn + response) :=
  fun s =>
    let (r, w') := post E (world s) rq in
    (Return r,
     mkState w' (username s) (requests s ++ [(rq, r)]) (spawned s)).

(** [graphql_query(query, variables)] *)
Definition graphql_query (vars : variables) : M W viewer :=
  let payload :=
    {| req_variables := match vars with [] => None | _ => Some vars end |} in
  r <- session_post payload ;;
  match r with
  | inl e => raise e
  | inr resp =>
      if negb (resp_status resp =? 200)%Z then
        raise (Exception ("GraphQL query failed: "
                          ++ str_of_Z (resp_status resp))%string)
      else
        match json resp with
        | inl e => raise e
        | inr body =>
            match errors body with
            | Some errs =>
                raise (Exception ("GraphQL errors: " ++ errs)%string)
            | None => ret (data body)
            end
        end
  end.

(** [if not self.username: self.username = viewer['login']] *)
Definition remember_login (l : string) : M W unit :=
  fun s =>
    match username s with
    | None | Some EmptyString =>
        (Return tt, mkState (world s) (Some l) (requests s) (spawned s))
    | Some _ => (Return tt, s)
    end.

(** Step 1, the first [while True]: returns [all_repos] and the
    [viewer] of the last response, which the [for] of step 2 reads. *)
Fixpoint personal_loop (fuel : nat) (all_repos : list repo)
    (repo_cursor : option cursor) : M W (list repo * viewer) :=
  match fuel with
  | O => hang
  | S fuel' =>
      v <- graphql_query [("repoCursor", repo_cursor)] ;;
      remember_login (login v) ;;;
      let repos := repositories v in
      let all_repos := all_repos ++ nodes repos in
      if negb (hasNextPage (page_info repos)) then ret (all_repos, v)
      else personal_loop fuel' all_repos (endCursor (page_info repos))
  end.

(** Step 2, the inner [while True] of one [for] iteration. *)
Fixpoint org_loop (fuel : nat) (all_repos : list repo)
    (org_cursor : option cursor) : M W (list repo) :=
  match fuel with
  | O => hang
  | S fuel' =>
      v <- graphql_query [("orgCursor", org_cursor)] ;;
      match organizations v with
      | [] => ret all_repos
      | org0 :: _ =>
          let org_repos := org_repositories org0 in
          let all_repos := all_repos ++ nodes org_repos in
          if negb (hasNextPage (page_info org_repos)) then ret all_repos
          else org_loop fuel' all_repos (endCursor (page_info org_repos))
      end
  end.

(** [for org in viewer['organizations']['nodes']: ...]; the body does
    not mention [org]. *)
Fixpoint for_orgs (fuel : nat) (orgs : list organization)
    (all_repos : list repo) : M W (list repo) :=
  match orgs with
  | [] => ret all_repos
  | _org :: rest =>
      all_repos <- org_loop fuel all_repos None ;;
      for_orgs fuel rest all_repos
  end.

(** One step of the dict comprehension: [d[r['nameWithOwner']] = r]. *)
Definition dedup_step (d : Dict.t repo) (r : repo) : Dict.t repo :=
  Dict.set (nameWithOwner r) r d.

(** [{r['nameWithOwner']: r for r in all_repos}] *)
Definition unique_repos (all_repos : list repo) : Dict.t repo :=
  fold_left dedup_step all_repos [].

(** The accumulation of steps 1 and 2. *)
Definition accumulate (fuel : nat) : M W (list repo) :=
  pv <- personal_loop fuel [] None ;;
  for_orgs fuel (organizations (snd pv)) (fst pv).

Definition fetch_all_repositories (fuel : nat) : M W (list repo) :=
  all_repos <- accumulate fuel ;;
  ret (Dict.values (unique_repos all_repos)).

End Enumerator.

(** ** Decoding a captured pipe

    [bytes.decode()] is the strict UTF-8 codec: it raises
    [UnicodeDecodeError] unless the bytes are well-formed UTF-8 (no
    stray continuation byte, no overlong form, no surrogate, nothing
    above U+10FFFF).  A Python [str] is kept here as its UTF-8 bytes. *)

Definition in_range (lo hi : N) (b : byte) : bool :=
  ((lo <=? Byte.to_N b) && (Byte.to_N b <=? hi))%N.

Definition continuation (b : byte) : bool := in_range 0x80 0xBF b.

(** The second byte allowed after a three-byte lead. *)
Definition second_of_three (b0 b1 : byte) : bool :=
  if in_range 0xE0 0xE0 b0 then in_range 0xA0 0xBF b1
  else if in_range 0xED 0xED b0 then in_range 0x80 0x9F b1
  else continuation b1.

(** The second byte allowed after a four-byte lead. *)
Definition second_of_four (b0 b1 : byte) : bool :=
  if in_range 0xF0 0xF0 b0 then in_range 0x90 0xBF b1
  else if in_range 0xF4 0xF4 b0 then in_range 0x80 0x8F b1
  else continuation b1.

Fixpoint utf8_valid (bs : list byte) : bool :=
  match bs with
  | [] => true
  | b0 :: t0 =>
      if in_range 0x00 0x7F b0 then utf8_valid t0
      else
        match t0 with
        | [] => false
        | b1 :: t1 =>
            if in_range 0xC2 0xDF b0 then continuation b1 && utf8_valid t1
            else
              match t1 with
              | [] => false
              | b2 :: t2 =>
                  if in_range 0xE0 0xEF b0 then
                    second_of_three b0 b1 && continuation b2 && utf8_valid t2
                  else
                    match t2 with
                    | [] => false
                    | b3 :: t3 =>
                        if in_range 0xF0 0xF4 b0 then
                          second_of_four b0 b1 && continuation b2
                          && continuation b3 && utf8_valid t3
                        else false
                    end
              end
        end
  end.

(** ** The sync engine *)

(** The dict [clone_or_update_repo] returns; [error] is [None] when the
    dict has no ['error'] key. *)
Record result : Type := mkResult {
  result_name : string;
  status : string;
  path : string;
  error : option string
}.

Definition set_status (r : result) (s : string) : result :=
  mkResult (result_name r) s (path r) (error r).

Definition set_error (r : result) (e : string) : result :=
  mkResult (result_name r) (status r) (path r) (Some e).

Definition git_fetch (repo_path : string) : command :=
  mkCommand ["git"; "fetch"; "--all"; "--prune"] (Some repo_path).

Definition git_pull (repo_path : string) : command :=
  mkCommand ["git"; "pull"; "--ff-only"] (Some repo_path).

Definition git_clone (url repo_path : string) : command :=
  mkCommand ["git"; "clone"; url; repo_path; "--progress"] None.

Section SyncOne.

Context {W : Type} (E : Env W).

(** [stderr.decode()] *)
Definition decode (bs : list byte) : exn + string :=
  if utf8_valid bs then inr (string_of_list_byte bs)
  else inl (Exception (codec_error E bs)).

(** [Path.exists()] *)
Definition exists_ (p : string) : M W (exn + bool) :=
  fun s => (Return (path_exists E (world s) p), s).

(** [a and b] on two calls that may raise: [b] is evaluated only when
    [a] is true. *)
Definition and_ (a b : M W (exn + bool)) : M W (exn + bool) :=
  x <- a ;;
  match x with
  | inr true => b
  | other => ret other
  end.

(** [create_subprocess_exec(...)] followed by [communicate()],
    recorded in [spawned] whether or not it raises. *)
Definition subprocess (c : command) : M W (exn + completed) :=
  fun s =>
    let (r, w') := spawn E (world s) c in
    (Return r,
     mkState w' (username s) (requests s) (spawned s ++ [(c, r)])).

(** The [except Exception as e] clause, entered with the dict as the
    [try] block left it. *)
Definition except_handler (res : result) (e : exn) : M W result :=
  ret (set_error (set_status res "error") (str_of_exn e)).

(** One statement of the [try] block that may raise. *)
Definition try_ {A : Type} (m : M W (exn + A)) (res : result)
    (k : A -> M W result) : M W result :=
  x <- m ;;
  match x with
  | inl e => except_handler res e
  | inr a => k a
  end.

(** [repo_path = self.target_dir / repo['name']] *)
Definition repo_path (target_dir : string) (r : repo) : string :=
  joinpath E target_dir (name r).

Definition clone_or_update_repo (target_dir : string) (r : repo)
    : M W result :=
  let name_ := nameWithOwner r in
  let repo_path := repo_path target_dir r in
  let res := mkResult name_ "unknown" repo_path None in
  let url := sshUrl r in
  try_ (and_ (exists_ repo_path)
              (exists_ (joinpath E repo_path ".git"))) res (fun present =>
    if present then
      try_ (subprocess (git_fetch repo_path)) res (fun _proc_fetch =>
      try_ (subprocess (git_pull repo_path)) res (fun proc_pull =>
        if (returncode proc_pull =? 0)%Z then
          ret (set_status res "updated")
        else
          let res := set_status res "update_failed" in
          try_ (ret (decode (stderr proc_pull))) res (fun text =>
            ret (set_error res text))))
    else
      try_ (subprocess (git_clone url repo_path)) res (fun proc_clone =>
        if (returncode proc_clone =? 0)%Z then
          ret (set_status res "cloned")
        else
          let res := set_status res "clone_failed" in
          try_ (ret (decode (stderr proc_clone))) res (fun text =>
            ret (set_error res text)))).

End SyncOne.

(** ** The summary *)

(** ['failed' in s] *)
Definition contains_failed (s : string) : bool :=
  match String.index 0 "failed" s with
  | Some _ => true
  | None => false
  end.

(** The predicate [print_summary] counts and lists failures with. *)
Definition is_failure (r : result) : bool :=
  contains_failed (status r) || String.eqb (status r) "error".

(** What [print_summary] prints: the three counts, and for every
    failure its name with [r.get('error', 'Unknown error')]. *)
Record summary : Type := mkSummary {
  cloned : nat;
  updated : nat;
  failed : nat;
  failures : list (string * string)
}.

Definition count_if {A : Type} (f : A -> bool) (l : list A) : nat :=
  List.length (filter f l).

Definition print_summary (results : list result) : summary :=
  mkSummary
    (count_if (fun r => String.eqb (status r) "cloned") results)
    (count_if (fun r => String.eqb (status r) "updated") results)
    (count_if is_failure results)
    (map (fun r => (result_name r,
                    match error r with
                    | Some e => e
                    | None => "Unknown error"
                    end))
         (filter is_failure results)).

(** ** The bounded-concurrency driver of [run]

    [asyncio.gather] runs one [process_repo] task per repository on a
    single event loop; a task is suspended at [async with semaphore]
    until the semaphore lets it in, and leaves the block with its
    result.  The event loop is a transition system: a step is taken by
    one task, chosen by the schedule.  The subprocess calls of one
    [clone_or_update_repo] are taken in one step. *)

Inductive task : Type :=
| Waiting (r : repo)           (* not yet past [async with semaphore] *)
| Holding (r : repo)           (* inside the block, sync in flight *)
| Done (res : result)          (* returned its result *)
| Failed (e : exn).            (* left the block by an exception *)

Record pool (W : Type) : Type := mkPool {
  sem_value : Z;               (* the semaphore's counter *)
  tasks : list task;
  pool_state : state W
}.
Arguments mkPool {W} _ _ _.
Arguments sem_value {W} _.
Arguments tasks {W} _.
Arguments pool_state {W} _.

Fixpoint set_nth {A : Type} (i : nat) (x : A) (l : list A) : list A :=
  match l, i with
  | [], _ => []
  | _ :: l', O => x :: l'
  | y :: l', S i' => y :: set_nth i' x l'
  end.

Definition is_holding (t : task) : bool :=
  match t with Holding _ => true | _ => false end.

(** The number of sync operations in flight. *)
Definition in_flight (ts : list task) : nat := count_if is_holding ts.

Fixpoint collect (ts : list task) : outcome (list result) :=
  match ts with
  | [] => Return []
  | Done res :: ts' =>
      match collect ts' with
      | Return rs => Return (res :: rs)
      | o => o
      end
  | Failed e :: _ => Raise e
  | _ :: ts' =>
      match collect ts' with
      | Raise e => Raise e
      | _ => Hang
      end
  end.

Section Run.

Context {W : Type} (E : Env W).

(** One step of task [i]: enter the block when the counter is
    positive, or finish the sync and leave the block, giving the
    counter back on every way out.  [None]: the task cannot move. *)
Definition step (target_dir : string) (i : nat) (p : pool W)
    : option (pool W) :=
  match nth_error (tasks p) i with
  | Some (Waiting r) =>
      if (0 <? sem_value p)%Z then
        Some (mkPool (sem_value p - 1)%Z (set_nth i (Holding r) (tasks p))
                     (pool_state p))
      else None
  | Some (Holding r) =>
      match clone_or_update_repo E target_dir r (pool_state p) with
      | (Return res, s') =>
          Some (mkPool (sem_value p + 1)%Z (set_nth i (Done res) (tasks p)) s')
      | (Raise e, s') =>
          Some (mkPool (sem_value p + 1)%Z (set_nth i (Failed e) (tasks p)) s')
      | (Hang, _) => None
      end
  | _ => None
  end.

(** The event loop under a schedule; a pick that cannot move is
    skipped. *)
Fixpoint run_schedule (target_dir : string) (sched : list nat)
    (p : pool W) : pool W :=
  match sched with
  | [] => p
  | i :: rest =>
      match step target_dir i p with
      | Some p' => run_schedule target_dir rest p'
      | None => run_schedule target_dir rest p
      end
  end.

Definition initial_pool (cap : Z) (repos : list repo) (s : state W)
    : pool W :=
  mkPool cap (map Waiting repos) s.

(** [asyncio.Semaphore(value)] *)
Definition Semaphore (value : Z) : M W Z :=
  if (value <? 0)%Z then
    raise (Exception "Semaphore initial value must be >= 0")
  else ret value.

(** [await asyncio.gather(...)]: the results in the order of [repos],
    once every task has one. *)
Definition gather (target_dir : string) (sched : list nat) (cap : Z)
    (repos : list repo) : M W (list result) :=
  fun s =>
    let p := run_schedule target_dir sched (initial_pool cap repos s) in
    (collect (tasks p), pool_state p).

(** The three ways [run] returns, with what it printed. *)
Inductive run_report : Type :=
| NoToken
| NoRepositories
| Synced (results : list result) (printed : summary).

Definition make_target_dir (target_dir : string) : M W unit :=
  fun s =>
    let (r, w') := mkdir E (world s) target_dir in
    (match r with inl e => Raise e | inr _ => Return tt end,
     mkState w' (username s) (requests s) (spawned s)).

Definition run (token target_dir : string) (MAX_CONCURRENT_CLONES : Z)
    (fuel : nat) (sched : list nat) : M W run_report :=
  if String.eqb token "YOUR_TOKEN_HERE" then ret NoToken
  else
    make_target_dir target_dir ;;;
    repos <- fetch_all_repositories E fuel ;;
    match repos with
    | [] => ret NoRepositories
    | _ =>
        semaphore <- Semaphore MAX_CONCURRENT_CLONES ;;
        results <- gather target_dir sched semaphore repos ;;
        ret (Synced results (print_summary results))
    end.

(** The command line as [parse_args] returns it; a command line that
    [argparse] refuses is not modelled. *)
Record args : Type := mkArgs {
  arg_token : option string;
  arg_target : string;
  arg_concurrent : Z
}.

(** What the body of [main] does when it runs: [token] is
    [args.token or GITHUB_TOKEN], and the statements
    [global MAX_CONCURRENT_CLONES] and
    [MAX_CONCURRENT_CLONES = args.concurrent] give [run] the value of
    [--concurrent] to read.  Whether the body is ever run is settled
    by [compile] below. *)
Definition main (GITHUB_TOKEN : string) (a : args) (fuel : nat)
    (sched : list nat) : M W run_report :=
  let token :=
    match arg_token a with
    | None | Some EmptyString => GITHUB_TOKEN
    | Some t => t
    end in
  let MAX_CONCURRENT_CLONES := arg_concurrent a in
  run token (arg_target a) MAX_CONCURRENT_CLONES fuel sched.

End Run.

(** ** Compiling the module

    Before it runs anything the interpreter compiles the whole file.
    Its symbol-table pass goes through the body of a function in
    order, and refuses a [global] statement for a name that the body
    has read or assigned before that statement.  For this pass a
    statement is the names it reads and the names it binds. *)

Inductive stmt : Type :=
| Simple (reads binds : list string)
| GlobalDecl (names : list string).

Definition mentions (names : list string) (n : string) : bool :=
  existsb (String.eqb n) names.

(** The complaint about one name of a [global] statement, [used] and
    [bound] being the names read and assigned so far. *)
Definition global_error (used bound : list string) (n : string)
    : option string :=
  if mentions used n then
    Some ("name '" ++ n ++ "' is used prior to global declaration")%string
  else if mentions bound n then
    Some ("name '" ++ n ++ "' is assigned to before global declaration")%string
  else None.

Fixpoint first_error (used bound names : list string) : option string :=
  match names with
  | [] => None
  | n :: rest =>
      match global_error used bound n with
      | Some msg => Some msg
      | None => first_error used bound rest
      end
  end.

(** The message of the [SyntaxError] a function body is refused
    with, if it is. *)
Fixpoint symtable (used bound : list string) (body : list stmt)
    : option string :=
  match body with
  | [] => None
  | Simple reads binds :: rest =>
      symtable (used ++ reads) (bound ++ binds) rest
  | GlobalDecl names :: rest =>
      match first_error used bound names with
      | Some msg => Some msg
      | None => symtable used bound rest
      end
  end.

(** The statements of [main], lines 229 to 240. *)
Definition main_body : list stmt :=
  [ Simple ["argparse"] ["parser"];                          (* 229 *)
    Simple ["parser"] [];                                    (* 230 *)
    Simple ["parser"; "TARGET_DIR"] [];                      (* 231 *)
    Simple ["parser"; "int"; "MAX_CONCURRENT_CLONES"] [];    (* 232 *)
    Simple ["parser"] ["args"];                              (* 233 *)
    Simple ["args"; "GITHUB_TOKEN"] ["token"];               (* 235 *)
    GlobalDecl ["MAX_CONCURRENT_CLONES"];                    (* 236 *)
    Simple ["args"] ["MAX_CONCURRENT_CLONES"];               (* 237 *)
    Simple ["GitHubCloner"; "token"; "args"] ["cloner"];     (* 239 *)
    Simple ["cloner"] [] ].                                  (* 240 *)

(** Compiling the file: [main] is its only function with a [global]
    statement.  [None] when the file compiles. *)
Definition compile : option string := symtable [] [] main_body.

(** ** The [__main__] guard *)

(** What [asyncio.run(main())] does: return, raise an [Exception],
    raise [KeyboardInterrupt], or go on for ever. *)
Inductive toplevel : Type :=
| Returned (r : run_report)
| RaisedException (e : exn)
| KeyboardInterrupt
| Running.

(** The last thing the process reports: a line of the guard, or the
    interpreter's report of a file it could not compile. *)
Inductive notice : Type :=
| InterruptedByUser
| UnexpectedError (msg : string)
| SyntaxError (msg : string).

(** [sigint]: the user interrupts the run. *)
Definition asyncio_run (sigint : bool) (o : outcome run_report) : toplevel :=
  if sigint then KeyboardInterrupt
  else
    match o with
    | Return r => Returned r
    | Raise e => RaisedException e
    | Hang => Running
    end.

(** The notice the guard prints and the exit status of the process,
    [None] for a process that does not exit: falling off the end of the
    script is status 0, [sys.exit(1)] is status 1. *)
Definition guard (t : toplevel) : option notice * option Z :=
  match t with
  | Returned _ => (None, Some 0%Z)
  | KeyboardInterrupt => (Some InterruptedByUser, Some 0%Z)
  | RaisedException e => (Some (UnexpectedError (str_of_exn e)), Some 1%Z)
  | Running => (None, None)
  end.

(** The process [python github_cloner.py]: the file is compiled, and
    a [SyntaxError] ends the process with status 1 before any
    statement of the file has run; a file that compiles runs down to
    the guard. *)
Definition script {W : Type} (E : Env W) (GITHUB_TOKEN : string) (a : args)
    (sigint : bool) (fuel : nat) (sched : list nat) (w : W)
    : option notice * option Z :=
  match compile with
  | Some msg => (Some (SyntaxError msg), Some 1%Z)
  | None =>
      guard (asyncio_run sigint
               (fst (main E GITHUB_TOKEN a fuel sched (initial_state w))))
  end.

(** ** A simulated forge and workstation

    Used to run the cloner on concrete inputs.  A paginated source is
    the list of its pages; the cursor that follows page [i] is the
    decimal numeral of [i + 1], and the last page (only) reports
    [hasNextPage] false.  As the [query] document asks, [$repoCursor]
    addresses the viewer's own collection and [$orgCursor] the
    collection of every organization listed. *)

Module Sim.

Record forge : Type := mkForge {
  viewer_login : string;
  personal : list (list repo);
  orgs : list (string * list (list repo))
}.

Definition cursor_of_page (i : nat) : cursor :=
  NilZero.string_of_uint (Nat.to_uint i).

Definition page_of_cursor (c : option cursor) : nat :=
  match c with
  | None => 0
  | Some s =>
      match NilZero.uint_of_string s with
      | Some u => Nat.of_uint u
      | None => 0
      end
  end.

Definition serve (pages : list (list repo)) (c : option cursor) : connection :=
  let i := page_of_cursor c in
  let more := S i <? List.length pages in
  mkConnection (nth i pages [])
    (mkPageInfo more (if more then Some (cursor_of_page (S i)) else None)).

Fixpoint lookup (k : string) (vars : variables) : option cursor :=
  match vars with
  | [] => None
  | (k', v) :: rest => if String.eqb k k' then v else lookup k rest
  end.

Definition variable (k : string) (rq : request) : option cursor :=
  match req_variables rq with
  | None => None
  | Some vars => lookup k vars
  end.

(** The [viewer] object for the two cursors of a request. *)
Definition view (f : forge) (repoCursor orgCursor : option cursor) : viewer :=
  mkViewer (viewer_login f)
    (serve (personal f) repoCursor)
    (map (fun o => mkOrganization (fst o) (serve (snd o) orgCursor)) (orgs f)).

(** The [viewer] object asked for by a request. *)
Definition viewer_for (f : forge) (rq : request) : viewer :=
  view f (variable "repoCursor" rq) (variable "orgCursor" rq).

Definition answer (f : forge) (rq : request) : response :=
  mkResponse 200 (inr (mkPayload None (viewer_for f rq))).

(** The workstation: the paths that exist.  A clone that exits with 0
    leaves the directory and its metadata behind. *)
Definition disk := list string.

Definition on_disk (d : disk) (p : string) : bool :=
  existsb (String.eqb p) d.

Definition after_spawn (c : command) (r : exn + completed) (d : disk) : disk :=
  match r, argv c with
  | inr done, ["git"; "clone"; _; p; "--progress"] =>
      if (returncode done =? 0)%Z then p :: (p ++ "/.git")%string :: d else d
  | _, _ => d
  end.

Definition env (f : forge) (git : command -> exn + completed)
    (codec : list byte -> string) : Env disk :=
  mkEnv disk
    (fun d rq => (inr (answer f rq), d))
    (fun d p => inr (on_disk d p))
    (fun d c => (git c, after_spawn c (git c) d))
    (fun d p => (inr tt, p :: d))
    (fun a b => (a ++ "/" ++ b)%string)
    codec.

End Sim.

(** * Vocabulary of the statements *)

(** The last node of [l] named [k], if any. *)
Fixpoint last_named (k : string) (l : list repo) : option repo :=
  match l with
  | [] => None
  | r :: l' =>
      match last_named k l' with
      | Some x => Some x
      | None => if String.eqb (nameWithOwner r) k then Some r else None
      end
  end.

(** [r] is the last node of [pool] with its full name. *)
Definition last_seen (r : repo) (pool : list repo) : Prop :=
  exists before after,
    pool = before ++ r :: after /\
    ~ In (nameWithOwner r) (map nameWithOwner after).

(** The exception [graphql_query] raises on what [post] gave back, if
    any. *)
Definition query_failure (r : exn + response) : option exn :=
  match r with
  | inl e => Some e
  | inr resp =>
      if negb (resp_status resp =? 200)%Z then
        Some (Exception ("GraphQL query failed: "
                         ++ str_of_Z (resp_status resp))%string)
      else
        match json resp with
        | inl e => Some e
        | inr body =>
            match errors body with
            | Some errs => Some (Exception ("GraphQL errors: " ++ errs)%string)
            | None => None
            end
        end
  end.

(** A computation is fail-fast when it only adds to [requests] and
    raises the failure of any request it made. *)
Definition fail_fast {W A : Type} (m : M W A) : Prop :=
  forall s out s', m s = (out, s') ->
    exists new, requests s' = (requests s ++ new) /\
      forall rq r e, In (rq, r) new -> query_failure r = Some e ->
        out = Raise e.

(** The [variables] of the requests made, in order. *)
Definition asked {W : Type} (s : state W) : list (option variables) :=
  map (fun x => req_variables (fst x)) (requests s).

(** The cursor a client holds before asking for page [i]. *)
Definition cursor_at (i : nat) : option cursor :=
  match i with
  | O => None
  | S _ => Some (Sim.cursor_of_page i)
  end.

Definition personal_request (i : nat) : request :=
  mkRequest (Some [("repoCursor", cursor_at i)]).

Definition org_request (i : nat) : request :=
  mkRequest (Some [("orgCursor", cursor_at i)]).

(** [self.username] after [remember_login l]. *)
Definition logged_in (l : string) (u : option string) : option string :=
  match u with
  | None | Some EmptyString => Some l
  | Some x => Some x
  end.

(** The requests of pages [i], [i+1], ..., [i+n-1], with the answers. *)
Definition exchanges (f : Sim.forge) (mk : nat -> request) (i n : nat)
    : list (request * (exn + response)) :=
  map (fun j => (mk j, inr (Sim.answer f (mk j)))) (seq i n).

(** Which git command a command line is. *)
Definition is_clone (c : command) : bool :=
  match argv c with
  | "git" :: "clone" :: _ => true
  | _ => false
  end.

Definition is_fetch (c : command) : bool :=
  match argv c with
  | "git" :: "fetch" :: _ => true
  | _ => false
  end.

Definition is_pull (c : command) : bool :=
  match argv c with
  | "git" :: "pull" :: _ => true
  | _ => false
  end.

(** The closed enumeration of statuses, and its failure variants. *)
Definition statuses : list string :=
  ["cloned"; "updated"; "clone_failed"; "update_failed"; "error"].

Definition failure_statuses : list string :=
  ["clone_failed"; "update_failed"; "error"].

(** Steps a task still has to take: two while waiting, one while
    holding. *)
Definition steps_left (t : task) : nat :=
  match t with
  | Waiting _ => 2
  | Holding _ => 1
  | _ => 0
  end.

Fixpoint remaining (ts : list task) : nat :=
  match ts with
  | [] => 0
  | t :: ts' => steps_left t + remaining ts'
  end.

(** The number of picks of a schedule on which a task moved. *)
Fixpoint moves {W : Type} (E : Env W) (target_dir : string)
    (sched : list nat) (p : pool W) : nat :=
  match sched with
  | [] => 0
  | i :: rest =>
      match step E target_dir i p with
      | Some p' => S (moves E target_dir rest p')
      | None => moves E target_dir rest p
      end
  end.

(** The slot of descriptor [r]: its task before, during or after the
    sync of [r]. *)
Definition task_for {W : Type} (E : Env W) (target_dir : string)
    (r : repo) (t : task) : Prop :=
  t = Waiting r \/ t = Holding r \/
  exists res, t = Done res /\ result_name res = nameWithOwner r /\
              path res = repo_path E target_dir r.

Definition result_for {W : Type} (E : Env W) (target_dir : string)
    (r : repo) (res : result) : Prop :=
  result_name res = nameWithOwner r /\ path res = repo_path E target_dir r.

Definition pool_inv {W : Type} (E : Env W) (target_dir : string)
    (cap : Z) (repos : list repo) (p : pool W) : Prop :=
  (0 <= sem_value p)%Z /\
  (sem_value p + Z.of_nat (in_flight (tasks p)) = cap)%Z /\
  Forall2 (task_for E target_dir) repos (tasks p).

(** No schedule makes [gather] return. *)
Definition starved {W : Type} (E : Env W) (target_dir : string) (cap : Z)
    (repos : list repo) (s : state W) : Prop :=
  forall sched, fst (gather E target_dir sched cap repos s) = Hang.


(** ** Scenarios *)

Module Scenario.

(** The descriptor of [owner/short]. *)
Definition descriptor (owner short : string) : repo :=
  mkRepo short (owner ++ "/" ++ short)%string
         ("git@github.com:" ++ owner ++ "/" ++ short ++ ".git")%string
         false owner.

Definition exited (code : Z) (err : list byte) : exn + completed :=
  inr (mkCompleted code [] err).

(** The second argument of a git command line. *)
Definition verb (c : command) : string :=
  match argv c with
  | _ :: v :: _ => v
  | _ => ""
  end.

(** The directory a clone command writes to. *)
Definition clone_target (c : command) : string :=
  match argv c with
  | [_; _; _; p; _] => p
  | _ => ""
  end.

Definition utf8_message : list byte -> string :=
  fun _ => "'utf-8' codec can't decode byte 0xff in position 0: invalid start byte".

(** *** Two organizations, one page each *)

Definition dotfiles := descriptor "me" "dotfiles".
Definition api := descriptor "acme" "api".
Definition web := descriptor "globex" "web".

Definition two_orgs : Sim.forge :=
  Sim.mkForge "me" [[dotfiles]] [("acme", [[api]]); ("globex", [[web]])].

Definition git_missing (c : command) : exn + completed :=
  inl (Exception "[Errno 2] No such file or directory: 'git'").

Definition two_orgs_env : Env Sim.disk :=
  Sim.env two_orgs git_missing utf8_message.

(** *** Organizations with different page counts *)

Definition api2 := descriptor "acme" "api2".

Definition uneven : Sim.forge :=
  Sim.mkForge "me" [[dotfiles]] [("acme", [[api]; [api2]]); ("globex", [[web]])].

Definition uneven_env : Env Sim.disk :=
  Sim.env uneven git_missing utf8_message.

(** *** A forge that answers the second request with status 502 *)

Definition two_pages : Sim.forge :=
  Sim.mkForge "me" [[dotfiles]; [api]] [].

Definition bad_gateway : response :=
  mkResponse 502
    (inl (Exception "Attempt to decode JSON with unexpected mimetype: text/html")).

Definition outage_env : Env nat :=
  mkEnv nat
    (fun n rq => (inr (if n =? 1 then bad_gateway else Sim.answer two_pages rq),
                  S n))
    (fun _ _ => inr false)
    (fun n c => (git_missing c, n))
    (fun n p => (inr tt, n))
    (fun a b => (a ++ "/" ++ b)%string)
    utf8_message.

(** *** The mirror of three repositories, two of them named [x] *)

Definition a_x := descriptor "a" "x".
Definition a_y := descriptor "a" "y".
Definition b_x := descriptor "b" "x".

Definition mirror : Sim.forge :=
  Sim.mkForge "a" [[a_x; a_y]] [("b", [[b_x]])].

(** [backup/x] is a clone already. *)
Definition mirror_disk : Sim.disk := ["backup/x"; "backup/x/.git"].

Definition not_found : list byte :=
  list_byte_of_string "fatal: repository not found".

(** Fetch fails, pull succeeds, cloning into [backup/y] fails. *)
Definition mirror_git (c : command) : exn + completed :=
  if String.eqb (verb c) "fetch" then exited 1 []
  else if String.eqb (verb c) "clone" then
    if String.eqb (clone_target c) "backup/y" then exited 128 not_found
    else exited 0 []
  else exited 0 [].

Definition mirror_env : Env Sim.disk :=
  Sim.env mirror mirror_git utf8_message.

Definition mirror_args : args := mkArgs (Some "ghp_token") "backup" 2.

Definition round_robin : list nat := [0; 1; 2; 0; 1; 2; 0; 1; 2].

(** *** Git writing bytes that are not UTF-8 on stderr *)

Definition garbled_git (c : command) : exn + completed :=
  if String.eqb (verb c) "fetch" then exited 0 []
  else if String.eqb (verb c) "pull" then exited 1 [xff]
  else exited 128 [xff].

Definition garbled_env : Env Sim.disk :=
  Sim.env mirror garbled_git utf8_message.

End Scenario.

(** ** Further vocabulary *)

(** [k] appended to [seen] unless it is there already. *)
Definition note_key (seen : list string) (k : string) : list string :=
  if existsb (String.eqb k) seen then seen else seen ++ [k].

(** The strings of [l], each once, in the order of first occurrence. *)
Definition first_occurrences (l : list string) : list string :=
  fold_left note_key l [].

(** The [viewer] that [graphql_query] returns on what [post] gave
    back, [None] when it raises instead. *)
Definition page_of (r : exn + response) : option viewer :=
  match r with
  | inl _ => None
  | inr resp =>
      if negb (resp_status resp =? 200)%Z then None
      else
        match json resp with
        | inl _ => None
        | inr body =>
            match errors body with
            | Some _ => None
            | None => Some (data body)
            end
        end
  end.

(** The collection a loop reads in a [viewer]: step 1 reads the
    viewer's own, step 2 the first organization's, if there is one. *)
Definition own_collection (v : viewer) : option connection :=
  Some (repositories v).

Definition first_org_collection (v : viewer) : option connection :=
  match organizations v with
  | [] => None
  | org0 :: _ => Some (org_repositories org0)
  end.

Definition repo_cursor_request (c : option cursor) : request :=
  mkRequest (Some [("repoCursor", c)]).

Definition org_cursor_request (c : option cursor) : request :=
  mkRequest (Some [("orgCursor", c)]).

(** A log of exchanges follows the cursors from [c]: the first request
    carries [c], and every further request is made after a page that
    reported [hasNextPage], with the [endCursor] of that page. *)
Fixpoint follows_cursors (mk : option cursor -> request)
    (coll : viewer -> option connection) (c : option cursor)
    (log : list (request * (exn + response))) : Prop :=
  match log with
  | [] => True
  | (rq, r) :: rest =>
      rq = mk c /\
      match rest with
      | [] => True
      | _ :: _ =>
          exists v conn,
            page_of r = Some v /\ coll v = Some conn /\
            hasNextPage (page_info conn) = true /\
            follows_cursors mk coll (endCursor (page_info conn)) rest
      end
  end.

(** The nodes of the pages of a log, in order. *)
Fixpoint nodes_of (coll : viewer -> option connection)
    (log : list (request * (exn + response))) : list repo :=
  match log with
  | [] => []
  | (_, r) :: rest =>
      match page_of r with
      | Some v =>
          match coll v with
          | Some conn => nodes conn ++ nodes_of coll rest
          | None => nodes_of coll rest
          end
      | None => nodes_of coll rest
      end
  end.

(** How a loop that returned came to stop on the last exchange of its
    log: a page that reports no next page, or no collection to read. *)
Definition stops_on (coll : viewer -> option connection)
    (log : list (request * (exn + response))) : Prop :=
  exists rq r v, last log (rq, r) = (rq, r) /\ log <> [] /\
    page_of r = Some v /\
    match coll v with
    | Some conn => hasNextPage (page_info conn) = false
    | None => True
    end.

(** A server that answers every request with a page reporting a next
    page. *)
Definition always_more {W : Type} (E : Env W) : Prop :=
  forall w rq, exists v,
    page_of (fst (post E w rq)) = Some v /\
    hasNextPage (page_info (repositories v)) = true.

(** A byte of the ASCII range. *)
Definition is_ascii (b : byte) : Prop := (Byte.to_N b <= 127)%N.

(** A process layer whose processes write ASCII only on stderr. *)
Definition ascii_stderr {W : Type} (E : Env W) : Prop :=
  forall w c done w', spawn E w c = (inr done, w') ->
    Forall is_ascii (stderr done).

(** What [clone_or_update_repo] hands back: a status of the
    enumeration, and an error detail exactly on a failure status. *)
Definition well_formed (res : result) : Prop :=
  In (status res) statuses /\
  (error res <> None <-> In (status res) failure_statuses).

(** A pool whose finished tasks all hold a well-formed result. *)
Definition task_ok (t : task) : Prop :=
  match t with
  | Done res => well_formed res
  | Failed _ => False
  | _ => True
  end.

(** The three ways the condition of line 136 can go in the world [w]:
    both paths are there; the directory is absent, or there without
    its [.git]; or a check raises, the second being made only when the
    first answered true. *)
Definition is_checkout {W : Type} (E : Env W) (w : W) (p : string) : Prop :=
  path_exists E w p = inr true /\
  path_exists E w (joinpath E p ".git") = inr true.

Definition no_checkout {W : Type} (E : Env W) (w : W) (p : string) : Prop :=
  path_exists E w p = inr false \/
  (path_exists E w p = inr true /\
   path_exists E w (joinpath E p ".git") = inr false).

Definition check_raises {W : Type} (E : Env W) (w : W) (p : string)
    (e : exn) : Prop :=
  path_exists E w p = inl e \/
  (path_exists E w p = inr true /\
   path_exists E w (joinpath E p ".git") = inl e).

(** The line [print_summary] prints for a failed result. *)
Definition failure_line (r : result) (line : string * string) : Prop :=
  exists e, error r = Some e /\ line = (result_name r, e).

(** [c] is one of the three git commands of the sync of [r]. *)
Definition git_command_for {W : Type} (E : Env W) (target_dir : string)
    (r : repo) (c : command) : Prop :=
  c = git_fetch (repo_path E target_dir r) \/
  c = git_pull (repo_path E target_dir r) \/
  c = git_clone (sshUrl r) (repo_path E target_dir r).

(** Every command of a log belongs to the sync of a descriptor of
    [repos]. *)
Definition commands_within {W : Type} (E : Env W) (target_dir : string)
    (repos : list repo) (log : list (command * (exn + completed))) : Prop :=
  Forall (fun x => exists r, In r repos /\
                             git_command_for E target_dir r (fst x)) log.

(** ** Further scenarios *)

Module Edge.

(** A forge that keeps announcing a next page. *)
Definition endless_page : viewer :=
  mkViewer "me"
    (mkConnection [Scenario.dotfiles] (mkPageInfo true (Some "again")))
    [].

Definition endless_env : Env unit :=
  mkEnv unit
    (fun w rq => (inr (mkResponse 200 (inr (mkPayload None endless_page))), w))
    (fun _ _ => inr false)
    (fun w c => (Scenario.git_missing c, w))
    (fun w p => (inr tt, w))
    (fun a b => (a ++ "/" ++ b)%string)
    Scenario.utf8_message.

(** A forge whose viewer has no repository and no organization. *)
Definition nothing : Sim.forge := Sim.mkForge "me" [[]] [].

Definition nothing_env : Env Sim.disk :=
  Sim.env nothing Scenario.git_missing Scenario.utf8_message.

(** The mirror with a target directory that may not be searched:
    every [stat] below it fails with [EACCES]. *)
Definition permission_denied (p : string) : exn :=
  Exception ("[Errno 13] Permission denied: '" ++ p ++ "'")%string.

Definition locked_env : Env Sim.disk :=
  mkEnv Sim.disk
    (fun d rq => (inr (Sim.answer Scenario.mirror rq), d))
    (fun d p => inl (permission_denied p))
    (fun d c => (Scenario.mirror_git c, d))
    (fun d p => (inr tt, d))
    (fun a b => (a ++ "/" ++ b)%string)
    Scenario.utf8_message.

End Edge.

(** * Proofs *)

(** ** The dict *)

Module DictFacts.

Lemma get_set {V : Type} (k k' : string) (v : V) (d : Dict.t V) :
  Dict.get k' (Dict.set k v d) =
  if String.eqb k' k then Some v else Dict.get k' d.
Proof.
  induction d as [|[k0 v0] d IH]; simpl.
  - reflexivity.
  - destruct (String.eqb_spec k k0) as [->|Hk]; simpl.
    + destruct (String.eqb k' k0); reflexivity.
    + rewrite IH.
      destruct (String.eqb_spec k' k0) as [->|Hk'].
      * destruct (String.eqb_spec k0 k); congruence.
      * reflexivity.
Qed.

Lemma keys_set_in {V : Type} (k k' : string) (v : V) (d : Dict.t V) :
  In k' (Dict.keys (Dict.set k v d)) <-> k' = k \/ In k' (Dict.keys d).
Proof.
  unfold Dict.keys.
  induction d as [|[k0 v0] d IH]; simpl.
  - intuition.
  - destruct (String.eqb_spec k k0) as [->|Hk]; simpl.
    + intuition.
    + rewrite IH. intuition.
Qed.

Lemma keys_set_NoDup {V : Type} (k : string) (v : V) (d : Dict.t V) :
  NoDup (Dict.keys d) -> NoDup (Dict.keys (Dict.set k v d)).
Proof.
  induction d as [|[k0 v0] d IH]; simpl; intros Hnd.
  - constructor; [intros [] | constructor].
  - inversion Hnd as [|? ? Hnot Hd]; subst.
    destruct (String.eqb_spec k k0) as [->|Hk]; simpl.
    + constructor; assumption.
    + constructor; [|apply IH; assumption].
      intros Hin. apply (keys_set_in k k0 v d) in Hin.
      destruct Hin as [Heq|Hin]; [congruence | contradiction].
Qed.

Lemma get_In {V : Type} (k : string) (v : V) (d : Dict.t V) :
  NoDup (Dict.keys d) -> (Dict.get k d = Some v <-> In (k, v) d).
Proof.
  induction d as [|[k0 v0] d IH]; simpl; intros Hnd.
  - split; [discriminate | intros []].
  - inversion Hnd as [|? ? Hnot Hd]; subst.
    destruct (String.eqb_spec k k0) as [->|Hk].
    + split.
      * intros [= ->]. left; reflexivity.
      * intros [[= ->]|Hin]; [reflexivity|].
        exfalso. apply Hnot. unfold Dict.keys.
        change k0 with (fst (k0, v)). apply in_map; assumption.
    + rewrite (IH Hd). split.
      * intros Hin; right; assumption.
      * intros [[= -> _]|Hin]; [congruence | assumption].
Qed.

End DictFacts.

Lemma fold_dedup_get (k : string) (l : list repo) (d : Dict.t repo) :
  Dict.get k (fold_left dedup_step l d) =
  match last_named k l with
  | Some r => Some r
  | None => Dict.get k d
  end.
Proof.
  revert d. induction l as [|r l IH]; intros d; simpl.
  - reflexivity.
  - rewrite IH. destruct (last_named k l); [reflexivity|].
    unfold dedup_step at 1. rewrite DictFacts.get_set.
    rewrite String.eqb_sym.
    destruct (String.eqb (nameWithOwner r) k); reflexivity.
Qed.

Lemma fold_dedup_NoDup (l : list repo) (d : Dict.t repo) :
  NoDup (Dict.keys d) -> NoDup (Dict.keys (fold_left dedup_step l d)).
Proof.
  revert d. induction l as [|r l IH]; intros d Hnd; simpl.
  - assumption.
  - apply IH. apply DictFacts.keys_set_NoDup; assumption.
Qed.

Lemma fold_dedup_keys (k : string) (l : list repo) (d : Dict.t repo) :
  In k (Dict.keys (fold_left dedup_step l d)) <->
  In k (map nameWithOwner l) \/ In k (Dict.keys d).
Proof.
  revert d. induction l as [|r l IH]; intros d; simpl.
  - intuition.
  - rewrite IH. unfold dedup_step. rewrite DictFacts.keys_set_in.
    intuition.
Qed.

Lemma last_named_Some (k : string) (l : list repo) (r : repo) :
  last_named k l = Some r <->
  nameWithOwner r = k /\
  exists l1 l2, l = (l1 ++ r :: l2) /\
                ~ In k (map nameWithOwner l2).
Proof.
  revert r. induction l as [|a l IH]; intros r; simpl.
  - split; [discriminate|].
    intros (_ & l1 & l2 & Heq & _). destruct l1; discriminate.
  - destruct (last_named k l) as [x|] eqn:Hl.
    + split.
      * intros [= ->]. destruct (proj1 (IH r) eq_refl) as (Hn & l1 & l2 & -> & Hnot).
        split; [assumption|]. exists (a :: l1), l2. split; [reflexivity|assumption].
      * intros (Hn & l1 & l2 & Heq & Hnot).
        destruct l1 as [|b l1]; simpl in Heq; injection Heq as -> ->.
        -- assert (Hx : Some x = None -> False) by discriminate.
           exfalso.
           destruct (proj1 (IH x) eq_refl) as (Hnx & m1 & m2 & Hm & _).
           apply Hnot. rewrite Hm, map_app, in_app_iff. right; simpl; left.
           assumption.
        -- apply IH. split; [assumption|]. exists l1, l2. split; [reflexivity|assumption].
    + assert (Hnone : ~ In k (map nameWithOwner l)).
      { intros Hin. apply in_map_iff in Hin. destruct Hin as (y & Hy & Hin).
        apply in_split in Hin. destruct Hin as (m1 & m2 & ->).
        clear IH. revert Hl. clear -Hy. induction m1 as [|z m1 IHm]; simpl.
        - destruct (last_named k m2); [discriminate|].
          rewrite Hy, String.eqb_refl. discriminate.
        - destruct (last_named k (m1 ++ y :: m2)); [discriminate|].
          intros _. apply IHm. reflexivity. }
      destruct (String.eqb_spec (nameWithOwner a) k) as [Ha|Ha].
      * split.
        -- intros [= <-]. split; [assumption|]. exists [], l. split; [reflexivity|assumption].
        -- intros (Hn & l1 & l2 & Heq & Hnot).
           destruct l1 as [|b l1]; simpl in Heq; injection Heq as -> ->; [reflexivity|].
           exfalso. apply Hnone. rewrite map_app, in_app_iff. right; simpl; left; assumption.
      * split; [discriminate|].
        intros (Hn & l1 & l2 & Heq & Hnot).
        destruct l1 as [|b l1]; simpl in Heq; injection Heq as -> ->; [congruence|].
        exfalso. apply Hnone. rewrite map_app, in_app_iff. right; simpl; left; assumption.
Qed.

(** ** Deduplication *)

Lemma unique_repos_spec (pool : list repo) :
  let out := Dict.values (unique_repos pool) in
  NoDup (map nameWithOwner out) /\
  (forall k, In k (map nameWithOwner out) <-> In k (map nameWithOwner pool)) /\
  (forall r, In r out <-> last_seen r pool).
Proof.
  cbv zeta. unfold unique_repos.
  set (d := fold_left dedup_step pool []).
  assert (Hnd : NoDup (Dict.keys d))
    by (apply fold_dedup_NoDup; constructor).
  assert (Hget : forall k v, In (k, v) d <-> last_named k pool = Some v).
  { intros k v. rewrite <- (DictFacts.get_In k v d Hnd). unfold d.
    rewrite fold_dedup_get. simpl.
    destruct (last_named k pool); split; congruence. }
  assert (Hkeys : map nameWithOwner (Dict.values d) = Dict.keys d).
  { unfold Dict.values, Dict.keys. rewrite map_map. apply map_ext_in.
    intros [k v] Hin. simpl. apply Hget in Hin.
    apply last_named_Some in Hin. tauto. }
  rewrite Hkeys. split; [assumption|]. split.
  - intros k. unfold d. rewrite fold_dedup_keys. simpl. tauto.
  - intros r. unfold Dict.values. rewrite in_map_iff. split.
    + intros ([k v] & Hv & Hin). simpl in Hv. subst v.
      apply Hget, last_named_Some in Hin.
      destruct Hin as (Hk & before & after & Hpool & Hnot).
      exists before, after. rewrite Hk. split; assumption.
    + intros (before & after & Hpool & Hnot).
      exists (nameWithOwner r, r). split; [reflexivity|].
      apply Hget, last_named_Some. split; [reflexivity|].
      exists before, after. split; assumption.
Qed.

(** C2.  Whatever pool of nodes steps 1 and 2 accumulated,
    [fetch_all_repositories] returns a list with exactly one descriptor
    for each full name of the pool, and that descriptor is the last
    node of the pool carrying the name. *)
Theorem C2_one_descriptor_per_full_name {W : Type} (E : Env W) (fuel : nat)
    (s s' : state W) (pool : list repo) :
  accumulate E fuel s = (Return pool, s') ->
  exists out,
    fetch_all_repositories E fuel s = (Return out, s') /\
    NoDup (map nameWithOwner out) /\
    (forall k, In k (map nameWithOwner out) <-> In k (map nameWithOwner pool)) /\
    (forall r, In r out <-> last_seen r pool).
Proof.
  intros Hacc. exists (Dict.values (unique_repos pool)). split.
  - unfold fetch_all_repositories, bind. rewrite Hacc. reflexivity.
  - apply unique_repos_spec.
Qed.


(** ** Enumeration: failures *)

Section FailFast.

Context {W : Type} (E : Env W).

Lemma fail_fast_ret {A : Type} (a : A) : fail_fast (@ret W A a).
Proof.
  intros s out s' [= <- <-]. exists []. rewrite app_nil_r.
  split; [reflexivity | intros ? ? ? []].
Qed.

Lemma fail_fast_hang {A : Type} : fail_fast (@hang W A).
Proof.
  intros s out s' [= <- <-]. exists []. rewrite app_nil_r.
  split; [reflexivity | intros ? ? ? []].
Qed.

Lemma fail_fast_bind {A B : Type} (m : M W A) (k : A -> M W B) :
  fail_fast m -> (forall a, fail_fast (k a)) -> fail_fast (bind m k).
Proof.
  intros Hm Hk s out s' Hrun. unfold bind in Hrun.
  destruct (m s) as [o1 s1] eqn:Hms.
  destruct (Hm _ _ _ Hms) as (new1 & Hreq1 & Hbad1).
  destruct o1 as [a|e|].
  - destruct (Hk a _ _ _ Hrun) as (new2 & Hreq2 & Hbad2).
    exists (new1 ++ new2). split.
    + rewrite Hreq2, Hreq1, app_assoc. reflexivity.
    + intros rq r e Hin Hq. apply in_app_or in Hin. destruct Hin as [Hin|Hin].
      * specialize (Hbad1 _ _ _ Hin Hq). discriminate.
      * eapply Hbad2; eassumption.
  - injection Hrun as <- <-. exists new1. split; [assumption|].
    intros rq r e' Hin Hq. specialize (Hbad1 _ _ _ Hin Hq).
    injection Hbad1 as ->. reflexivity.
  - injection Hrun as <- <-. exists new1. split; [assumption|].
    intros rq r e' Hin Hq. specialize (Hbad1 _ _ _ Hin Hq). discriminate.
Qed.

Lemma graphql_query_run (vars : variables) (s : state W) :
  let rq := mkRequest match vars with [] => None | _ => Some vars end in
  let r := fst (post E (world s) rq) in
  graphql_query E vars s =
  (match query_failure r with
   | Some e => Raise e
   | None =>
       match r with
       | inr (mkResponse _ (inr body)) => Return (data body)
       | inr (mkResponse _ (inl e)) | inl e => Raise e
       end
   end,
   mkState (snd (post E (world s) rq)) (username s)
           (requests s ++ [(rq, r)]) (spawned s)).
Proof.
  unfold graphql_query, bind, session_post. cbv zeta.
  destruct (post E (world s) _) as [r w']. simpl.
  destruct r as [e|[st [e|body]]]; simpl; [reflexivity| |];
    destruct (negb (st =? 200)%Z); try reflexivity.
  destruct (errors body); reflexivity.
Qed.

Lemma fail_fast_graphql_query (vars : variables) :
  fail_fast (graphql_query E vars).
Proof.
  intros s out s' Hrun. rewrite graphql_query_run in Hrun. cbv zeta in Hrun.
  injection Hrun as <- <-. eexists. split; [reflexivity|].
  intros rq r e [[= <- <-]|[]] Hq. rewrite Hq. reflexivity.
Qed.

Lemma fail_fast_remember_login (l : string) :
  fail_fast (remember_login (W := W) l).
Proof.
  intros s out s' Hrun. unfold remember_login in Hrun.
  exists []. rewrite app_nil_r.
  destruct (username s) as [[|? ?]|]; injection Hrun as <- <-;
    (split; [reflexivity | intros ? ? ? []]).
Qed.

Lemma fail_fast_personal_loop (fuel : nat) :
  forall all_repos c, fail_fast (personal_loop E fuel all_repos c).
Proof.
  induction fuel as [|fuel IH]; intros all_repos c; simpl.
  - apply fail_fast_hang.
  - apply fail_fast_bind; [apply fail_fast_graphql_query|]. intros v.
    apply fail_fast_bind; [apply fail_fast_remember_login|]. intros _.
    destruct (negb _); [apply fail_fast_ret | apply IH].
Qed.

Lemma fail_fast_org_loop (fuel : nat) :
  forall all_repos c, fail_fast (org_loop E fuel all_repos c).
Proof.
  induction fuel as [|fuel IH]; intros all_repos c; simpl.
  - apply fail_fast_hang.
  - apply fail_fast_bind; [apply fail_fast_graphql_query|]. intros v.
    destruct (organizations v); [apply fail_fast_ret|].
    destruct (negb _); [apply fail_fast_ret | apply IH].
Qed.

Lemma fail_fast_for_orgs (fuel : nat) (orgs : list organization) :
  forall all_repos, fail_fast (for_orgs E fuel orgs all_repos).
Proof.
  induction orgs as [|o orgs IH]; intros all_repos; simpl.
  - apply fail_fast_ret.
  - apply fail_fast_bind; [apply fail_fast_org_loop | apply IH].
Qed.

Lemma fail_fast_fetch_all_repositories (fuel : nat) :
  fail_fast (fetch_all_repositories E fuel).
Proof.
  unfold fetch_all_repositories, accumulate.
  apply fail_fast_bind; [|intros; apply fail_fast_ret].
  apply fail_fast_bind; [apply fail_fast_personal_loop|].
  intros; apply fail_fast_for_orgs.
Qed.

End FailFast.

(** C3.  Whenever a page request of the enumeration comes back with a
    status other than 200, or with an [errors] entry in its payload,
    [fetch_all_repositories] raises the exception that carries that
    status, or that error list, and so returns no repository list. *)
Theorem C3_failed_page_fails_enumeration
    {W : Type} (E : Env W) (fuel : nat) (w : W)
    (rq : request) (resp : response) :
  let run := fetch_all_repositories E fuel (initial_state w) in
  In (rq, inr resp) (requests (snd run)) ->
  (resp_status resp <> 200%Z ->
     fst run = Raise (Exception ("GraphQL query failed: "
                                 ++ str_of_Z (resp_status resp))%string)) /\
  (forall body errs,
     resp_status resp = 200%Z ->
     json resp = inr body -> errors body = Some errs ->
     fst run = Raise (Exception ("GraphQL errors: " ++ errs)%string)) /\
  (resp_status resp <> 200%Z \/
   (exists body errs, json resp = inr body /\ errors body = Some errs) ->
   forall repos, fst run <> Return repos).
Proof.
  intros run Hin.
  destruct run as [out s'] eqn:Hrun. simpl in *.
  destruct (fail_fast_fetch_all_repositories E fuel _ _ _ Hrun)
    as (new & Hreq & Hbad).
  simpl in Hreq. rewrite Hreq in Hin.
  assert (H1 : resp_status resp <> 200%Z ->
               out = Raise (Exception ("GraphQL query failed: "
                                       ++ str_of_Z (resp_status resp))%string)).
  { intros Hst. apply (Hbad _ _ _ Hin). simpl.
    apply Z.eqb_neq in Hst. rewrite Hst. reflexivity. }
  assert (H2 : forall body errs, resp_status resp = 200%Z ->
               json resp = inr body -> errors body = Some errs ->
               out = Raise (Exception ("GraphQL errors: " ++ errs)%string)).
  { intros body errs Hst Hbody Herr. apply (Hbad _ _ _ Hin). simpl.
    apply Z.eqb_eq in Hst. rewrite Hst, Hbody, Herr. reflexivity. }
  repeat split; try assumption.
  intros Hfail repos Hret.
  destruct (Z.eq_dec (resp_status resp) 200) as [Hst|Hst].
  - destruct Hfail as [Hne|(body & errs & Hbody & Herr)]; [contradiction|].
    rewrite (H2 body errs Hst Hbody Herr) in Hret. discriminate.
  - rewrite (H1 Hst) in Hret. discriminate.
Qed.

(** ** Pagination over the simulated forge *)

Module SimFacts.

Lemma page_of_cursor_at (i : nat) : Sim.page_of_cursor (cursor_at i) = i.
Proof.
  destruct i as [|i]; [reflexivity|].
  unfold cursor_at, Sim.page_of_cursor, Sim.cursor_of_page.
  pose proof (DecimalNat.Unsigned.of_to (S i)) as Hof.
  destruct (Nat.to_uint (S i)) as [| | | | | | | | | |] eqn:Hd;
    [ simpl in Hof; discriminate
    | rewrite NilZero.usu by (intros Hnil; discriminate Hnil); exact Hof .. ].
Qed.

Lemma skipn_nth {A : Type} (d : A) (l : list A) (i : nat) :
  i < List.length l -> skipn i l = nth i l d :: skipn (S i) l.
Proof.
  revert i. induction l as [|a l IH]; intros i Hi; simpl in Hi; [lia|].
  destruct i as [|i]; [reflexivity|].
  simpl. apply IH. lia.
Qed.

Lemma logged_in_idem (l : string) (u : option string) :
  logged_in l (logged_in l u) = logged_in l u.
Proof.
  destruct u as [[|a x]|]; simpl; try reflexivity; destruct l; reflexivity.
Qed.

Section Forge.

Variables (f : Sim.forge) (git : command -> exn + completed)
          (codec : list byte -> string).

Let E := Sim.env f git codec.

Lemma graphql_query_sim (vars : variables) (s : state Sim.disk) :
  vars <> [] ->
  graphql_query E vars s =
  (Return (Sim.viewer_for f (mkRequest (Some vars))),
   mkState (world s) (username s)
     (requests s ++ [(mkRequest (Some vars),
                      inr (Sim.answer f (mkRequest (Some vars))))])
     (spawned s)).
Proof.
  intros Hne. rewrite graphql_query_run. cbv zeta.
  destruct vars as [|v vars]; [congruence|]. reflexivity.
Qed.

Lemma serve_at (pages : list (list repo)) (i : nat) :
  Sim.serve pages (cursor_at i) =
  mkConnection (nth i pages [])
    (mkPageInfo (S i <? List.length pages)
       (if S i <? List.length pages then cursor_at (S i) else None)).
Proof. unfold Sim.serve. rewrite page_of_cursor_at. reflexivity. Qed.

Lemma remember_login_run (l : string) (s : state Sim.disk) :
  remember_login l s =
  (Return tt,
   mkState (world s) (logged_in l (username s)) (requests s) (spawned s)).
Proof.
  unfold remember_login, logged_in.
  destruct s as [w [[|a x]|] rs sp]; reflexivity.
Qed.

(** One iteration of the first [while True]. *)
Lemma personal_loop_step (fuel i : nat) (acc : list repo)
    (s : state Sim.disk) :
  personal_loop E (S fuel) acc (cursor_at i) s =
  let s1 :=
    mkState (world s) (logged_in (Sim.viewer_login f) (username s))
      (requests s ++ exchanges f personal_request i 1) (spawned s) in
  let acc1 := acc ++ nth i (Sim.personal f) [] in
  if S i <? List.length (Sim.personal f)
  then personal_loop E fuel acc1 (cursor_at (S i)) s1
  else (Return (acc1, Sim.view f (cursor_at i) None), s1).
Proof.
  cbn [personal_loop]. unfold bind at 1.
  rewrite graphql_query_sim by discriminate.
  change (Sim.viewer_for f _) with (Sim.view f (cursor_at i) None).
  unfold bind at 1. rewrite remember_login_run.
  cbn [world username requests spawned login repositories Sim.view].
  rewrite serve_at. cbn [nodes page_info hasNextPage endCursor].
  cbv zeta. destruct (S i <? List.length (Sim.personal f)); reflexivity.
Qed.

Lemma personal_loop_sim (n : nat) :
  forall i fuel acc s,
    i + S n = List.length (Sim.personal f) ->
    S n <= fuel ->
    personal_loop E fuel acc (cursor_at i) s =
    (Return (acc ++ List.concat (skipn i (Sim.personal f)),
             Sim.view f (cursor_at (i + n)) None),
     mkState (world s) (logged_in (Sim.viewer_login f) (username s))
       (requests s ++ exchanges f personal_request i (S n))
       (spawned s)).
Proof.
  induction n as [|n IH]; intros i fuel acc s Hlen Hfuel;
    (destruct fuel as [|fuel]; [lia|]);
    rewrite personal_loop_step; cbv zeta;
    rewrite (skipn_nth [] _ i) by lia; cbn [List.concat].
  - replace (S i <? _) with false by (symmetry; apply Nat.ltb_ge; lia).
    rewrite skipn_all2 by lia. cbn [List.concat].
    rewrite app_nil_r, Nat.add_0_r. reflexivity.
  - replace (S i <? _) with true by (symmetry; apply Nat.ltb_lt; lia).
    rewrite IH by lia. cbn [world username requests spawned].
    rewrite logged_in_idem, <- !app_assoc.
    replace (S i + n) with (i + S n) by lia. reflexivity.
Qed.

(** One iteration of the inner [while True] of step 2: whichever
    organization the [for] is at, the page read is the first
    organization's. *)
Lemma org_loop_step (fuel i : nat) (acc : list repo) (s : state Sim.disk)
    (l0 : string) (pages0 : list (list repo))
    (rest : list (string * list (list repo))) :
  Sim.orgs f = (l0, pages0) :: rest ->
  org_loop E (S fuel) acc (cursor_at i) s =
  let s1 :=
    mkState (world s) (username s)
      (requests s ++ exchanges f org_request i 1) (spawned s) in
  let acc1 := acc ++ nth i pages0 [] in
  if S i <? List.length pages0
  then org_loop E fuel acc1 (cursor_at (S i)) s1
  else (Return acc1, s1).
Proof.
  intros Horgs. cbn [org_loop]. unfold bind at 1.
  rewrite graphql_query_sim by discriminate.
  change (Sim.viewer_for f _) with (Sim.view f None (cursor_at i)).
  cbn [organizations Sim.view]. rewrite Horgs. cbn [map fst snd org_repositories].
  rewrite serve_at. cbn [nodes page_info hasNextPage endCursor].
  cbv zeta. destruct (S i <? List.length pages0); reflexivity.
Qed.

Lemma org_loop_sim (l0 : string) (pages0 : list (list repo))
    (rest : list (string * list (list repo))) (n : nat) :
  Sim.orgs f = (l0, pages0) :: rest ->
  forall i fuel acc s,
    i + S n = List.length pages0 ->
    S n <= fuel ->
    org_loop E fuel acc (cursor_at i) s =
    (Return (acc ++ List.concat (skipn i pages0)),
     mkState (world s) (username s)
       (requests s ++ exchanges f org_request i (S n)) (spawned s)).
Proof.
  intros Horgs.
  induction n as [|n IH]; intros i fuel acc s Hlen Hfuel;
    (destruct fuel as [|fuel]; [lia|]);
    rewrite (org_loop_step _ _ _ _ _ _ _ Horgs); cbv zeta;
    rewrite (skipn_nth [] _ i) by lia; cbn [List.concat].
  - replace (S i <? _) with false by (symmetry; apply Nat.ltb_ge; lia).
    rewrite skipn_all2 by lia. cbn [List.concat].
    rewrite app_nil_r. reflexivity.
  - replace (S i <? _) with true by (symmetry; apply Nat.ltb_lt; lia).
    rewrite IH by lia. cbn [world username requests spawned].
    rewrite <- !app_assoc. reflexivity.
Qed.

(** The [for] of step 2 over any list of organizations: one copy of the
    first organization's repositories per iteration. *)
Lemma for_orgs_sim (l0 : string) (pages0 : list (list repo))
    (rest : list (string * list (list repo))) (fuel : nat) :
  Sim.orgs f = (l0, pages0) :: rest ->
  1 <= List.length pages0 <= fuel ->
  forall (os : list organization) acc s,
    for_orgs E fuel os acc s =
    (Return (acc ++ List.concat (repeat (List.concat pages0) (List.length os))),
     mkState (world s) (username s)
       (requests s ++
        List.concat (repeat (exchanges f org_request 0 (List.length pages0))
                            (List.length os)))
       (spawned s)).
Proof.
  intros Horgs Hlen.
  induction os as [|o os IH]; intros acc s; cbn [for_orgs].
  - cbn. unfold ret. rewrite !app_nil_r. destruct s; reflexivity.
  - unfold bind at 1.
    destruct (List.length pages0) as [|n] eqn:Hn; [lia|].
    change None with (cursor_at 0).
    rewrite (org_loop_sim l0 pages0 rest n Horgs 0 fuel acc s) by lia.
    rewrite IH. cbn [world username requests spawned skipn List.length repeat
                     List.concat].
    rewrite <- !app_assoc. reflexivity.
Qed.

(** Steps 1 and 2 together. *)
Lemma accumulate_sim (l0 : string) (pages0 : list (list repo))
    (rest : list (string * list (list repo))) (fuel : nat)
    (s : state Sim.disk) :
  Sim.orgs f = (l0, pages0) :: rest ->
  1 <= List.length pages0 <= fuel ->
  1 <= List.length (Sim.personal f) <= fuel ->
  fst (accumulate E fuel s) =
  Return (List.concat (Sim.personal f) ++
          List.concat (repeat (List.concat pages0) (List.length (Sim.orgs f)))).
Proof.
  intros Horgs Hlen0 Hlen. unfold accumulate, bind.
  destruct (List.length (Sim.personal f)) as [|n] eqn:Hn; [lia|].
  change None with (cursor_at 0).
  rewrite (personal_loop_sim n 0 fuel [] s) by lia.
  cbn [fst snd organizations Sim.view].
  rewrite (for_orgs_sim l0 pages0 rest fuel Horgs Hlen0).
  rewrite length_map. reflexivity.
Qed.

End Forge.

End SimFacts.

(** X1.  On a simulated personal stream of [K] pages, [K >= 1], the
    first loop posts exactly [K] requests, the first without a cursor
    and each following one with the cursor the previous page gave, and
    returns the nodes of all the pages in order; it does so for every
    bound on the iterations that is at least [K]. *)
Theorem X1_personal_stream_pagination (f : Sim.forge)
    (git : command -> exn + completed) (codec : list byte -> string)
    (fuel : nat) (s : state Sim.disk) :
  1 <= List.length (Sim.personal f) <= fuel ->
  let K := List.length (Sim.personal f) in
  let run := personal_loop (Sim.env f git codec) fuel [] None s in
  fst run = Return (List.concat (Sim.personal f),
                    Sim.view f (cursor_at (K - 1)) None) /\
  requests (snd run) = requests s ++ exchanges f personal_request 0 K /\
  List.length (requests (snd run)) = List.length (requests s) + K.
Proof.
  intros Hlen K run. subst run.
  destruct K as [|n] eqn:HK; [subst K; lia|].
  change None with (cursor_at 0).
  rewrite (SimFacts.personal_loop_sim f git codec n 0 fuel [] s)
    by (subst K; lia).
  cbn [fst snd requests skipn app]. replace (S n - 1) with (0 + n) by lia.
  repeat split.
  rewrite length_app. unfold exchanges. rewrite length_map, length_seq.
  reflexivity.
Qed.

(** Witness of X1: the personal stream of two pages. *)
Lemma X1_witness :
  asked (snd (personal_loop (Sim.env Scenario.two_pages Scenario.git_missing
                               Scenario.utf8_message) 7 [] None
                (initial_state [])))
  = [Some [("repoCursor", None)]; Some [("repoCursor", Some "1")]].
Proof.
  unfold asked.
  rewrite (proj1 (proj2 (X1_personal_stream_pagination Scenario.two_pages
                           Scenario.git_missing Scenario.utf8_message 7
                           (initial_state [])
                           ltac:(simpl; lia)))).
  reflexivity.
Defined.

(** X3.  On a simulated forge whose first organization has [K0]
    pages, [K0 >= 1], the loop of one iteration of step 2 posts
    exactly [K0] requests, whichever organization the iteration is
    for, and adds the nodes of those pages to the pool. *)
Theorem X3_organization_loop (f : Sim.forge)
    (git : command -> exn + completed) (codec : list byte -> string)
    (l0 : string) (pages0 : list (list repo))
    (rest : list (string * list (list repo))) (fuel : nat)
    (all_repos : list repo) (s : state Sim.disk) :
  Sim.orgs f = (l0, pages0) :: rest ->
  1 <= List.length pages0 <= fuel ->
  let run := org_loop (Sim.env f git codec) fuel all_repos None s in
  fst run = Return (all_repos ++ List.concat pages0) /\
  requests (snd run)
  = requests s ++ exchanges f org_request 0 (List.length pages0).
Proof.
  intros Horgs Hlen run. subst run.
  destruct (List.length pages0) as [|n] eqn:Hn; [lia|].
  change None with (cursor_at 0).
  rewrite (SimFacts.org_loop_sim f git codec l0 pages0 rest n Horgs
             0 fuel all_repos s) by lia.
  split; reflexivity.
Qed.

(** Witness of X3: the first organization has two pages. *)
Lemma X3_witness :
  asked (snd (org_loop Scenario.uneven_env 5 [] None (initial_state [])))
  = [Some [("orgCursor", None)]; Some [("orgCursor", Some "1")]].
Proof.
  unfold asked, Scenario.uneven_env.
  rewrite (proj2 (X3_organization_loop Scenario.uneven Scenario.git_missing
                    Scenario.utf8_message "acme"
                    [[Scenario.api]; [Scenario.api2]]
                    [("globex", [[Scenario.web]])] 5 [] (initial_state [])
                    eq_refl ltac:(simpl; lia))).
  reflexivity.
Defined.

(** X2.  On a simulated forge whose first organization has the pages
    [pages0], steps 1 and 2 accumulate the personal stream followed by
    one copy of the nodes of [pages0] for each organization listed. *)
Theorem X2_accumulated_pool (f : Sim.forge)
    (git : command -> exn + completed) (codec : list byte -> string)
    (l0 : string) (pages0 : list (list repo))
    (rest : list (string * list (list repo))) (fuel : nat)
    (s : state Sim.disk) :
  Sim.orgs f = (l0, pages0) :: rest ->
  1 <= List.length pages0 <= fuel ->
  1 <= List.length (Sim.personal f) <= fuel ->
  fst (accumulate (Sim.env f git codec) fuel s) =
  Return (List.concat (Sim.personal f) ++
          List.concat (repeat (List.concat pages0) (S (List.length rest)))).
Proof.
  intros Horgs Hlen0 Hlen.
  rewrite (SimFacts.accumulate_sim f git codec l0 pages0 rest fuel s
             Horgs Hlen0 Hlen).
  rewrite Horgs. reflexivity.
Qed.

(** Witness of X2: the forge of two organizations. *)
Lemma X2_witness :
  fst (accumulate Scenario.two_orgs_env 5 (initial_state []))
  = Return [Scenario.dotfiles; Scenario.api; Scenario.api].
Proof.
  unfold Scenario.two_orgs_env.
  rewrite (X2_accumulated_pool Scenario.two_orgs Scenario.git_missing
             Scenario.utf8_message "acme" [[Scenario.api]]
             [("globex", [[Scenario.web]])] 5 (initial_state [])
             eq_refl ltac:(simpl; lia) ltac:(simpl; lia)).
  reflexivity.
Defined.

(** ** The per-repository sync *)

Ltac sync_unfold :=
  unfold clone_or_update_repo, try_, and_, bind, exists_, subprocess,
    except_handler, ret, decode; cbv beta iota zeta.

Ltac sync_case :=
  match goal with
  | |- context [spawn ?E ?w ?c] =>
      let e := fresh "e" in
      let done := fresh "done" in
      let w' := fresh "w" in
      let H := fresh "Hspawn" in
      destruct (spawn E w c) as [[e|done] w'] eqn:H
  | |- context [(returncode ?d =? 0)%Z] =>
      let H := fresh "Hrc" in
      destruct (Z.eqb_spec (returncode d) 0) as [H|H]
  | |- context [utf8_valid ?b] =>
      let H := fresh "Hutf" in
      destruct (utf8_valid b) eqn:H
  | |- context [path_exists ?E ?w ?p] =>
      let H := fresh "Hpath" in
      destruct (path_exists E w p) as [?e|[|]] eqn:H
  end; cbn [andb fst snd world username requests spawned];
  cbv beta iota zeta.

Section SyncFacts.

Context {W : Type} (E : Env W).

(** The sync always returns a result for its descriptor, touches only
    [world] and [spawned], and runs git on one directory only. *)
Lemma clone_or_update_repo_returns (target_dir : string) (r : repo)
    (s : state W) :
  exists res s' new,
    clone_or_update_repo E target_dir r s = (Return res, s') /\
    spawned s' = spawned s ++ new /\
    username s' = username s /\
    requests s' = requests s /\
    result_name res = nameWithOwner r /\
    path res = repo_path E target_dir r /\
    forall c o, In (c, o) new ->
      c = git_fetch (repo_path E target_dir r) \/
      c = git_pull (repo_path E target_dir r) \/
      c = git_clone (sshUrl r) (repo_path E target_dir r).
Proof.
  sync_unfold. repeat sync_case;
    do 3 eexists; cbn [world username requests spawned];
    (split; [reflexivity|]);
    rewrite <- ?app_assoc;
    (split; [first [reflexivity | symmetry; apply app_nil_r]|]);
    repeat (split; [reflexivity|]);
    cbn [In app]; intros c o Hin; intuition congruence.
Qed.

End SyncFacts.

(** C4.  [clone_or_update_repo] returns a result whatever the process
    layer does: an exception raised by an invocation is caught and
    gives status [error] with the exception's message as error detail;
    the status is one of the five of the enumeration; and the result
    has an error detail exactly when the status is one of the three
    failure variants. *)
Theorem C4_sync_never_raises {W : Type} (E : Env W) (target_dir : string)
    (r : repo) (s : state W) :
  exists res s' new,
    clone_or_update_repo E target_dir r s = (Return res, s') /\
    spawned s' = spawned s ++ new /\
    In (status res) statuses /\
    (error res <> None <-> In (status res) failure_statuses) /\
    (forall c e, In (c, inl e) new ->
       status res = "error" /\ error res = Some (str_of_exn e)).
Proof.
  sync_unfold. repeat sync_case;
    do 3 eexists; cbn [world username requests spawned];
    (split; [reflexivity|]);
    rewrite <- ?app_assoc;
    (split; [first [reflexivity | symmetry; apply app_nil_r]|]);
    cbn [status error set_status set_error statuses failure_statuses In app];
    (split; [tauto|]);
    (split;
       [ first
           [ solve [split; [intros _; tauto | intros _; discriminate]]
           | solve [split;
                     [ intros H; exfalso; apply H; reflexivity
                     | intros H;
                       repeat (destruct H as [H|H]; try discriminate H);
                       contradiction ]] ]
       | ]);
    intros c e' Hin;
    repeat (destruct Hin as [Hin|Hin]; try discriminate Hin);
    try contradiction;
    injection Hin as <- <-; split; reflexivity.
Qed.

(** X18.  Which branch the sync takes.  When the local path exists
    and holds version-control metadata, the sync runs fetch and pull
    only, never clone.  When the local path is absent, or there
    without its metadata, the sync runs the clone command and nothing
    else: an invocation that raises gives status [error]; exit code 0
    gives [cloned]; a non-zero exit code gives [clone_failed] with the
    captured stderr as error detail when that stderr is well-formed
    UTF-8, and [error] with the codec's message when it is not.  When
    an existence check raises, the sync runs no command and gives
    status [error] with the message of that exception. *)
Theorem X18_branch_selection {W : Type} (E : Env W) (target_dir : string)
    (r : repo) (s : state W) :
  let p := repo_path E target_dir r in
  let run := clone_or_update_repo E target_dir r s in
  (is_checkout E (world s) p ->
   exists new,
     spawned (snd run) = spawned s ++ new /\
     forall c o, In (c, o) new ->
       (c = git_fetch p \/ c = git_pull p) /\ is_clone c = false) /\
  (no_checkout E (world s) p ->
   let o := fst (spawn E (world s) (git_clone (sshUrl r) p)) in
   spawned (snd run) = spawned s ++ [(git_clone (sshUrl r) p, o)] /\
   is_fetch (git_clone (sshUrl r) p) = false /\
   is_pull (git_clone (sshUrl r) p) = false /\
   match o with
   | inl e =>
       fst run = Return (mkResult (nameWithOwner r) "error" p
                           (Some (str_of_exn e)))
   | inr done =>
       (returncode done = 0%Z ->
          fst run = Return (mkResult (nameWithOwner r) "cloned" p None)) /\
       (returncode done <> 0%Z -> utf8_valid (stderr done) = true ->
          fst run = Return (mkResult (nameWithOwner r) "clone_failed" p
                              (Some (string_of_list_byte (stderr done))))) /\
       (returncode done <> 0%Z -> utf8_valid (stderr done) = false ->
          fst run = Return (mkResult (nameWithOwner r) "error" p
                              (Some (codec_error E (stderr done)))))
   end) /\
  (forall e, check_raises E (world s) p e ->
     run = (Return (mkResult (nameWithOwner r) "error" p
                      (Some (str_of_exn e))), s)).
Proof.
  cbv zeta. unfold is_checkout, no_checkout, check_raises.
  refine (conj _ (conj _ _)).
  - intros (Hhere & Hmeta). sync_unfold. rewrite Hhere, Hmeta.
    cbv beta iota zeta.
    repeat sync_case;
      eexists; cbn [world username requests spawned];
      rewrite <- ?app_assoc; (split; [reflexivity|]);
      intros c o Hin; cbn [In app] in Hin;
      repeat (destruct Hin as [Hin|Hin]; [injection Hin as <- <-|]);
      try contradiction; (split; [tauto | reflexivity]).
  - intros Hno. sync_unfold.
    destruct Hno as [Hhere|(Hhere & Hmeta)]; rewrite Hhere;
      cbv beta iota zeta; rewrite ?Hmeta; cbv beta iota zeta;
      (destruct (spawn E (world s) _) as [[e|done] w'];
       cbn [fst snd]; cbv beta iota zeta;
       [ do 3 (split; [reflexivity|]); reflexivity
       | destruct (Z.eqb_spec (returncode done) 0) as [Hrc|Hrc];
         [|destruct (utf8_valid (stderr done)) eqn:Hutf];
         cbn [fst snd world username requests spawned];
         do 3 (split; [reflexivity|]);
         repeat split; intros; try reflexivity; try contradiction;
         try congruence ]).
  - intros e [Hhere|(Hhere & Hmeta)]; sync_unfold; rewrite Hhere;
      cbv beta iota zeta; rewrite ?Hmeta; destruct s; reflexivity.
Qed.

(** X19.  The update path.  When the local path exists and holds
    version-control metadata, the sync runs the fetch and, unless the
    fetch invocation raised, the pull, in that order.  What the fetch
    exits with changes nothing; a fetch or pull invocation that raises
    gives status [error].  Otherwise the result follows the pull: exit
    code 0 gives [updated]; a non-zero exit code gives [update_failed]
    with the pull's captured stderr as error detail when that stderr
    is well-formed UTF-8, and [error] with the codec's message when it
    is not. *)
Theorem X19_update_follows_pull {W : Type} (E : Env W) (target_dir : string)
    (r : repo) (s : state W) :
  let p := repo_path E target_dir r in
  is_checkout E (world s) p ->
  let run := clone_or_update_repo E target_dir r s in
  let fetched := spawn E (world s) (git_fetch p) in
  match fst fetched with
  | inl e =>
      spawned (snd run) = spawned s ++ [(git_fetch p, inl e)] /\
      fst run = Return (mkResult (nameWithOwner r) "error" p
                          (Some (str_of_exn e)))
  | inr proc_fetch =>
      let pulled := spawn E (snd fetched) (git_pull p) in
      spawned (snd run)
      = spawned s ++ [(git_fetch p, inr proc_fetch);
                      (git_pull p, fst pulled)] /\
      match fst pulled with
      | inl e =>
          fst run = Return (mkResult (nameWithOwner r) "error" p
                              (Some (str_of_exn e)))
      | inr proc_pull =>
          (returncode proc_pull = 0%Z ->
             fst run = Return (mkResult (nameWithOwner r) "updated" p None)) /\
          (returncode proc_pull <> 0%Z ->
           utf8_valid (stderr proc_pull) = true ->
             fst run = Return (mkResult (nameWithOwner r) "update_failed" p
                                 (Some (string_of_list_byte
                                          (stderr proc_pull))))) /\
          (returncode proc_pull <> 0%Z ->
           utf8_valid (stderr proc_pull) = false ->
             fst run = Return (mkResult (nameWithOwner r) "error" p
                                 (Some (codec_error E (stderr proc_pull)))))
      end
  end.
Proof.
  cbv zeta. intros (Hhere & Hmeta).
  sync_unfold. rewrite Hhere, Hmeta. cbv beta iota zeta.
  destruct (spawn E (world s) _) as [[e|proc_fetch] w1];
    cbn [fst snd world username requests spawned]; cbv beta iota zeta.
  - split; reflexivity.
  - destruct (spawn E w1 _) as [[e|proc_pull] w2];
      cbn [fst snd world username requests spawned]; cbv beta iota zeta.
    + rewrite <- app_assoc. split; reflexivity.
    + destruct (Z.eqb_spec (returncode proc_pull) 0) as [Hrc|Hrc];
        [|destruct (utf8_valid (stderr proc_pull)) eqn:Hutf];
        cbn [fst snd world username requests spawned];
        rewrite <- app_assoc; (split; [reflexivity|]);
        repeat split; intros; try reflexivity; try contradiction;
        try congruence.
Qed.

(** C10.  The local path is [joinpath] of the target directory and the
    short name, nothing else of the descriptor: two descriptors with
    the same short name and different full names are synced into the
    same directory, each sync reporting that path under its own full
    name and running git on that directory. *)
Theorem C10_short_name_collision {W : Type} (E : Env W)
    (target_dir : string) (r1 r2 : repo) (s1 s2 : state W) :
  name r1 = name r2 ->
  nameWithOwner r1 <> nameWithOwner r2 ->
  let p := joinpath E target_dir (name r1) in
  repo_path E target_dir r1 = p /\
  repo_path E target_dir r2 = p /\
  exists res1 s1' new1 res2 s2' new2,
    clone_or_update_repo E target_dir r1 s1 = (Return res1, s1') /\
    clone_or_update_repo E target_dir r2 s2 = (Return res2, s2') /\
    spawned s1' = spawned s1 ++ new1 /\
    spawned s2' = spawned s2 ++ new2 /\
    path res1 = p /\ path res2 = p /\
    result_name res1 <> result_name res2 /\
    (forall c o, In (c, o) new1 ->
       c = git_fetch p \/ c = git_pull p \/ c = git_clone (sshUrl r1) p) /\
    (forall c o, In (c, o) new2 ->
       c = git_fetch p \/ c = git_pull p \/ c = git_clone (sshUrl r2) p).
Proof.
  intros Hname Hfull p.
  assert (Hp2 : repo_path E target_dir r2 = p)
    by (unfold repo_path, p; rewrite Hname; reflexivity).
  split; [reflexivity|]. split; [assumption|].
  destruct (clone_or_update_repo_returns E target_dir r1 s1)
    as (res1 & s1' & new1 & Hrun1 & Hsp1 & _ & _ & Hn1 & Hpath1 & Hcmd1).
  destruct (clone_or_update_repo_returns E target_dir r2 s2)
    as (res2 & s2' & new2 & Hrun2 & Hsp2 & _ & _ & Hn2 & Hpath2 & Hcmd2).
  rewrite Hp2 in Hpath2, Hcmd2.
  exists res1, s1', new1, res2, s2', new2.
  repeat split; try assumption.
  rewrite Hn1, Hn2. assumption.
Qed.

(** ** The bounded-concurrency driver *)

Module PoolFacts.

Lemma set_nth_length {A : Type} (i : nat) (x : A) (l : list A) :
  List.length (set_nth i x l) = List.length l.
Proof.
  revert i. induction l as [|a l IH]; intros [|i]; simpl; auto.
Qed.

Lemma count_if_set_nth {A : Type} (f : A -> bool) (l : list A) :
  forall i t t', nth_error l i = Some t ->
    count_if f (set_nth i t' l) + (if f t then 1 else 0) =
    count_if f l + (if f t' then 1 else 0).
Proof.
  unfold count_if.
  induction l as [|a l IH]; intros [|i] t t' Hnth; simpl in *;
    try discriminate.
  - injection Hnth as ->. destruct (f t), (f t'); simpl; lia.
  - specialize (IH i t t' Hnth). destruct (f a); simpl; lia.
Qed.

Lemma remaining_set_nth (l : list task) :
  forall i t t', nth_error l i = Some t ->
    remaining (set_nth i t' l) + steps_left t = remaining l + steps_left t'.
Proof.
  induction l as [|a l IH]; intros [|i] t t' Hnth; simpl in *;
    try discriminate.
  - injection Hnth as ->. lia.
  - specialize (IH i t t' Hnth). lia.
Qed.

Lemma Forall2_set_nth {A B : Type} (R : A -> B -> Prop) (l1 : list A)
    (l2 : list B) :
  Forall2 R l1 l2 ->
  forall i b', (forall a, nth_error l1 i = Some a -> R a b') ->
    Forall2 R l1 (set_nth i b' l2).
Proof.
  induction 1 as [|a b l1 l2 Hab Hall IH]; intros [|i] b' Hnew; simpl;
    constructor; auto.
Qed.

Lemma Forall2_nth_error_r {A B : Type} (R : A -> B -> Prop) (l1 : list A)
    (l2 : list B) :
  Forall2 R l1 l2 ->
  forall i b, nth_error l2 i = Some b ->
    exists a, nth_error l1 i = Some a /\ R a b.
Proof.
  induction 1 as [|a b l1 l2 Hab Hall IH]; intros [|i] b0 Hnth; simpl in *;
    try discriminate.
  - injection Hnth as ->. exists a. split; [reflexivity | assumption].
  - apply IH. assumption.
Qed.

Lemma count_if_pos {A : Type} (f : A -> bool) (l : list A) :
  0 < count_if f l -> exists i t, nth_error l i = Some t /\ f t = true.
Proof.
  unfold count_if.
  induction l as [|a l IH]; simpl; [lia|].
  destruct (f a) eqn:Hfa.
  - intros _. exists 0, a. split; [reflexivity | assumption].
  - intros Hpos. destruct (IH Hpos) as (i & t & Hnth & Hft).
    exists (S i), t. split; assumption.
Qed.

Lemma remaining_pos (l : list task) :
  0 < remaining l ->
  0 < in_flight l \/
  exists i r, nth_error l i = Some (Waiting r).
Proof.
  unfold in_flight, count_if.
  induction l as [|a l IH]; simpl; [lia|].
  destruct a as [r|r|res|e]; simpl.
  - intros _. right. exists 0, r. reflexivity.
  - intros _. left. lia.
  - intros Hpos. destruct (IH Hpos) as [Hfl|(i & r & Hnth)];
      [left; assumption | right; exists (S i), r; assumption].
  - intros Hpos. destruct (IH Hpos) as [Hfl|(i & r & Hnth)];
      [left; assumption | right; exists (S i), r; assumption].
Qed.

Section Driver.

Context {W : Type} (E : Env W) (target_dir : string).

Lemma step_inv (cap : Z) (repos : list repo) (i : nat) (p p' : pool W) :
  pool_inv E target_dir cap repos p ->
  step E target_dir i p = Some p' ->
  pool_inv E target_dir cap repos p' /\
  remaining (tasks p') + 1 = remaining (tasks p).
Proof.
  intros (Hsem & Hcap & Hslots) Hstep. unfold step in Hstep.
  destruct (nth_error (tasks p) i) as [[r|r|res|e]|] eqn:Hnth;
    try discriminate.
  - destruct (Z.ltb_spec 0 (sem_value p)) as [Hpos|]; [|discriminate].
    injection Hstep as <-. unfold pool_inv. cbn [sem_value tasks].
    pose proof (count_if_set_nth is_holding _ i _ (Holding r) Hnth) as Hc.
    pose proof (remaining_set_nth _ i _ (Holding r) Hnth) as Hr.
    cbn in Hc, Hr. unfold in_flight in *.
    repeat split; try lia.
    apply Forall2_set_nth; [assumption|]. intros a Ha.
    destruct (Forall2_nth_error_r _ _ _ Hslots _ _ Hnth) as (a' & Ha' & Hfor).
    assert (a' = a) by congruence. subst a'.
    destruct Hfor as [[= ->]|[Hfor|(res & Hfor & _)]]; try discriminate.
    right; left; reflexivity.
  - destruct (clone_or_update_repo_returns E target_dir r (pool_state p))
      as (res & s' & new & Hrun & _ & _ & _ & Hname & Hpath & _).
    rewrite Hrun in Hstep. injection Hstep as <-.
    unfold pool_inv. cbn [sem_value tasks].
    pose proof (count_if_set_nth is_holding _ i _ (Done res) Hnth) as Hc.
    pose proof (remaining_set_nth _ i _ (Done res) Hnth) as Hr.
    cbn in Hc, Hr. unfold in_flight in *.
    repeat split; try lia.
    apply Forall2_set_nth; [assumption|]. intros a Ha.
    destruct (Forall2_nth_error_r _ _ _ Hslots _ _ Hnth) as (a' & Ha' & Hfor).
    assert (a' = a) by congruence. subst a'.
    destruct Hfor as [Hfor|[[= ->]|(res' & Hfor & _)]]; try discriminate.
    right; right. exists res. repeat split; assumption.
Qed.

Lemma run_schedule_inv (cap : Z) (repos : list repo) (sched : list nat) :
  forall p,
    pool_inv E target_dir cap repos p ->
    pool_inv E target_dir cap repos (run_schedule E target_dir sched p) /\
    remaining (tasks (run_schedule E target_dir sched p))
      + moves E target_dir sched p = remaining (tasks p).
Proof.
  induction sched as [|i sched IH]; intros p Hinv; simpl.
  - split; [assumption | lia].
  - destruct (step E target_dir i p) as [p'|] eqn:Hstep.
    + destruct (step_inv _ _ _ _ _ Hinv Hstep) as (Hinv' & Hrem).
      destruct (IH p' Hinv') as (Hfin & Hsum). split; [assumption | lia].
    + apply IH. assumption.
Qed.

Lemma run_schedule_app (sched more : list nat) (p : pool W) :
  run_schedule E target_dir (sched ++ more) p =
  run_schedule E target_dir more (run_schedule E target_dir sched p).
Proof.
  revert p. induction sched as [|i sched IH]; intros p; simpl.
  - reflexivity.
  - destruct (step E target_dir i p); apply IH.
Qed.

Lemma initial_pool_inv (cap : Z) (repos : list repo) (s : state W) :
  (0 <= cap)%Z ->
  pool_inv E target_dir cap repos (initial_pool cap repos s) /\
  remaining (tasks (initial_pool cap repos s)) = 2 * List.length repos.
Proof.
  intros Hcap. unfold pool_inv, initial_pool. cbn [sem_value tasks].
  assert (Hfl : in_flight (map Waiting repos) = 0).
  { unfold in_flight, count_if. induction repos; simpl; auto. }
  assert (Hrem : remaining (map Waiting repos) = 2 * List.length repos).
  { clear Hfl. induction repos as [|r l IH]; [reflexivity|].
    cbn [map remaining steps_left List.length]. rewrite IH. lia. }
  rewrite Hfl. repeat split; try lia; try assumption.
  clear Hfl Hrem. induction repos as [|r l IH]; constructor.
  - left; reflexivity.
  - apply IH.
Qed.

(** No deadlock: while a task has steps left, some task can move. *)
Lemma progress (cap : Z) (repos : list repo) (p : pool W) :
  (1 <= cap)%Z ->
  pool_inv E target_dir cap repos p ->
  0 < remaining (tasks p) ->
  exists i p', i < List.length repos /\ step E target_dir i p = Some p'.
Proof.
  intros Hcap (Hsem & Hsum & Hslots) Hrem.
  assert (Hlen : List.length repos = List.length (tasks p))
    by (eapply Forall2_length; eassumption).
  destruct (remaining_pos _ Hrem) as [Hfl|(i & r & Hnth)].
  - destruct (count_if_pos is_holding _ Hfl) as (i & t & Hnth & Hh).
    destruct t as [r|r|res|e]; try discriminate.
    destruct (clone_or_update_repo_returns E target_dir r (pool_state p))
      as (res & s' & new & Hrun & _).
    exists i. eexists. split.
    + rewrite Hlen. apply nth_error_Some. congruence.
    + unfold step. rewrite Hnth, Hrun. reflexivity.
  - destruct (in_flight (tasks p)) as [|n] eqn:Hfl.
    + exists i. eexists. split.
      * rewrite Hlen. apply nth_error_Some. congruence.
      * unfold step. rewrite Hnth.
        replace (0 <? sem_value p)%Z with true
          by (symmetry; apply Z.ltb_lt; lia).
        reflexivity.
    + assert (Hpos : 0 < count_if is_holding (tasks p))
        by (unfold in_flight in Hfl; lia).
      destruct (count_if_pos is_holding _ Hpos) as (j & t & Hnthj & Hh).
      destruct t as [r'|r'|res|e]; try discriminate.
      destruct (clone_or_update_repo_returns E target_dir r' (pool_state p))
        as (res & s' & new & Hrun & _).
      exists j. eexists. split.
      * rewrite Hlen. apply nth_error_Some. congruence.
      * unfold step. rewrite Hnthj, Hrun. reflexivity.
Qed.

(** With nothing left to do, [gather] has one result per descriptor,
    in the order of the descriptors. *)
Lemma collect_complete (repos : list repo) (ts : list task) :
  Forall2 (task_for E target_dir) repos ts ->
  remaining ts = 0 ->
  exists rs, collect ts = Return rs /\
             Forall2 (result_for E target_dir) repos rs.
Proof.
  induction 1 as [|r t repos ts Hfor Hall IH]; simpl; intros Hrem.
  - exists []. split; [reflexivity | constructor].
  - destruct Hfor as [->|[->|(res & -> & Hname & Hpath)]];
      simpl in Hrem; try lia.
    destruct (IH Hrem) as (rs & Hcol & Hrs).
    exists (res :: rs). rewrite Hcol. split; [reflexivity|].
    constructor; [split; assumption | assumption].
Qed.

Lemma collect_returned (repos : list repo) (ts : list task)
    (rs : list result) :
  Forall2 (task_for E target_dir) repos ts ->
  collect ts = Return rs ->
  remaining ts = 0 /\ Forall2 (result_for E target_dir) repos rs.
Proof.
  intros Hall. revert rs.
  induction Hall as [|r t repos ts Hfor Hall IH]; simpl; intros rs Hcol.
  - injection Hcol as <-. split; [reflexivity | constructor].
  - destruct Hfor as [->|[->|(res & -> & Hname & Hpath)]].
    + destruct (collect ts); discriminate.
    + destruct (collect ts); discriminate.
    + destruct (collect ts) as [rs'| |] eqn:Hts; try discriminate.
      injection Hcol as <-. destruct (IH rs' eq_refl) as (Hrem & Hrs).
      simpl. split; [assumption|].
      constructor; [split; assumption | assumption].
Qed.

(** Every reachable pool can be run to completion. *)
Lemma completion (cap : Z) (repos : list repo) (n : nat) :
  (1 <= cap)%Z ->
  forall p,
    pool_inv E target_dir cap repos p ->
    remaining (tasks p) = n ->
    exists more,
      remaining (tasks (run_schedule E target_dir more p)) = 0 /\
      pool_inv E target_dir cap repos (run_schedule E target_dir more p).
Proof.
  intros Hcap. induction n as [|n IH]; intros p Hinv Hrem.
  - exists []. split; assumption.
  - destruct (progress cap repos p Hcap Hinv) as (i & p' & _ & Hstep);
      [lia|].
    destruct (step_inv _ _ _ _ _ Hinv Hstep) as (Hinv' & Hrem').
    destruct (IH p' Hinv') as (more & Hdone & Hfin); [lia|].
    exists (i :: more). simpl. rewrite Hstep. split; assumption.
Qed.

End Driver.

End PoolFacts.

(** C9 (amended).  With a cap of at least one, smaller than the number
    of descriptors: under every schedule the number of syncs in flight
    stays within the cap; every descriptor keeps one slot, which ends
    with the result of that descriptor; while a slot is unfinished some
    task can move, and every task moves twice, so the schedule can
    always be continued until [gather] returns; and [gather] returns
    only with one result per descriptor, in order. *)
Theorem C9_concurrency_cap {W : Type} (E : Env W) (target_dir : string)
    (cap : Z) (repos : list repo) (s : state W) (sched : list nat) :
  (1 <= cap)%Z ->
  (cap < Z.of_nat (List.length repos))%Z ->
  let p0 := initial_pool cap repos s in
  let p := run_schedule E target_dir sched p0 in
  (Z.of_nat (in_flight (tasks p)) <= cap)%Z /\
  Forall2 (task_for E target_dir) repos (tasks p) /\
  remaining (tasks p) + moves E target_dir sched p0
    = 2 * List.length repos /\
  (0 < remaining (tasks p) ->
   exists i p', i < List.length repos /\ step E target_dir i p = Some p') /\
  (exists more rs,
     fst (gather E target_dir (sched ++ more) cap repos s) = Return rs /\
     Forall2 (result_for E target_dir) repos rs) /\
  (forall rs,
     fst (gather E target_dir sched cap repos s) = Return rs ->
     remaining (tasks p) = 0 /\
     Forall2 (result_for E target_dir) repos rs).
Proof.
  intros Hcap _ p0 p.
  destruct (PoolFacts.initial_pool_inv E target_dir cap repos s) as (Hinv0 & Hrem0);
    [lia|].
  destruct (PoolFacts.run_schedule_inv E target_dir cap repos sched p0 Hinv0)
    as (Hinv & Hsum).
  fold p in Hinv, Hsum. fold p0 in Hrem0.
  pose proof Hinv as (Hsem & Hcount & Hslots).
  split; [lia|]. split; [assumption|]. split; [lia|]. split.
  - intros Hleft. apply (PoolFacts.progress E target_dir cap repos p Hcap Hinv Hleft).
  - split.
    + destruct (PoolFacts.completion E target_dir cap repos _ Hcap p Hinv eq_refl)
        as (more & Hdone & (_ & _ & Hslots')).
      destruct (PoolFacts.collect_complete E target_dir repos _ Hslots' Hdone)
        as (rs & Hcol & Hrs).
      exists more, rs. split; [|assumption].
      unfold gather. cbn [fst]. rewrite PoolFacts.run_schedule_app. exact Hcol.
    + intros rs Hret. unfold gather in Hret. cbn [fst] in Hret.
      apply (PoolFacts.collect_returned E target_dir repos _ rs Hslots Hret).
Qed.

(** C7.  The file does not compile: the body of [main] reads
    [MAX_CONCURRENT_CLONES] on line 232 and declares it [global] on
    line 236, which the symbol-table pass refuses.  So whatever the
    command line, the token, the forge, the workstation, the schedule
    and the user do, the process reports the [SyntaxError] and exits
    with status 1 before [main] or the guard has run: an invocation
    whose run would have completed ends with status 1 like any
    other. *)
Theorem C7_process_always_exits_one {W : Type} (E : Env W)
    (GITHUB_TOKEN : string) (a : args) (sigint : bool) (fuel : nat)
    (sched : list nat) (w : W) :
  compile = Some "name 'MAX_CONCURRENT_CLONES' is used prior to global declaration" /\
  script E GITHUB_TOKEN a sigint fuel sched w
  = (Some (SyntaxError "name 'MAX_CONCURRENT_CLONES' is used prior to global declaration"),
     Some 1%Z).
Proof.
  assert (Hc : compile = Some "name 'MAX_CONCURRENT_CLONES' is used prior to global declaration")
    by (vm_compute; reflexivity).
  split; [exact Hc|]. unfold script. rewrite Hc. reflexivity.
Qed.

(** ** The claims on concrete runs *)

Import Scenario.

(** C1.  The forge lists two organizations, [acme] with the repository
    [acme/api] and [globex] with [globex/web].  Step 2 runs its loop
    once per organization, and both times reads the first
    organization's collection: [acme/api] is accumulated twice and
    [globex/web] never, so the enumeration returns without it. *)
Theorem C1_only_first_organization_is_read :
  let run := accumulate two_orgs_env 5 (initial_state []) in
  map org_login (organizations (Sim.view two_orgs None None))
    = ["acme"; "globex"] /\
  map nodes (map org_repositories (organizations (Sim.view two_orgs None None)))
    = [[api]; [web]] /\
  fst run = Return [dotfiles; api; api] /\
  asked (snd run)
    = [Some [("repoCursor", None)]; Some [("orgCursor", None)];
       Some [("orgCursor", None)]] /\
  fst (fetch_all_repositories two_orgs_env 5 (initial_state []))
    = Return [dotfiles; api].
Proof. vm_compute. repeat split. Qed.

(** C8.  The forge lists [acme] with two pages and [globex] with one.
    The loop of one iteration of step 2 posts two requests, and the
    enumeration posts five in all for sources of one, two and one
    pages: the iteration for [globex] follows the pages of [acme]. *)
Theorem C8_loop_of_second_organization_follows_first :
  map (fun o => List.length (snd o)) (Sim.orgs uneven) = [2; 1] /\
  List.length (Sim.personal uneven) = 1 /\
  asked (snd (org_loop uneven_env 5 [] None (initial_state [])))
    = [Some [("orgCursor", None)]; Some [("orgCursor", Some "1")]] /\
  asked (snd (fetch_all_repositories uneven_env 5 (initial_state [])))
    = [Some [("repoCursor", None)];
       Some [("orgCursor", None)]; Some [("orgCursor", Some "1")];
       Some [("orgCursor", None)]; Some [("orgCursor", Some "1")]] /\
  fst (fetch_all_repositories uneven_env 5 (initial_state []))
    = Return [dotfiles; api; api2].
Proof. vm_compute. repeat split. Qed.

(** The mirror run of the three descriptors: [a/x] is updated, the
    clone of [a/y] fails, [b/x] is "updated" in the directory of
    [a/x]; the summary counts one failure. *)
Example mirror_run :
  fst (run mirror_env "ghp_token" "backup" 2 5 round_robin
         (initial_state mirror_disk))
  = Return (Synced
      [mkResult "a/x" "updated" "backup/x" None;
       mkResult "a/y" "clone_failed" "backup/y"
                (Some "fatal: repository not found");
       mkResult "b/x" "updated" "backup/x" None]
      (mkSummary 0 2 1 [("a/y", "fatal: repository not found")])).
Proof. vm_compute. reflexivity. Qed.

(** Witness of C4: git is not installed; the invocation raises and the
    result has status [error] with the exception's message. *)
Lemma C4_witness :
  exists res s',
    clone_or_update_repo two_orgs_env "backup" dotfiles (initial_state [])
    = (Return res, s') /\
    status res = "error" /\
    error res = Some "[Errno 2] No such file or directory: 'git'".
Proof.
  destruct (C4_sync_never_raises two_orgs_env "backup" dotfiles
              (initial_state []))
    as (res & s' & new & Hrun & Hsp & _ & _ & Hexn).
  exists res, s'. split; [exact Hrun|].
  assert (Hs : snd (clone_or_update_repo two_orgs_env "backup" dotfiles
                      (initial_state [])) = s')
    by (rewrite Hrun; reflexivity).
  rewrite <- Hs in Hsp. vm_compute in Hsp.
  apply (Hexn (git_clone (sshUrl dotfiles) "backup/dotfiles")
              (Exception "[Errno 2] No such file or directory: 'git'")).
  rewrite <- Hsp. left. reflexivity.
Defined.

(** Witness of X18: in the mirror [backup/y] does not exist and the
    clone exits with 128, its stderr being plain text; below the
    directory that may not be searched the first check raises. *)
Lemma X18_witness :
  fst (clone_or_update_repo mirror_env "backup" a_y (initial_state mirror_disk))
  = Return (mkResult "a/y" "clone_failed" "backup/y"
              (Some "fatal: repository not found")) /\
  clone_or_update_repo Edge.locked_env "backup" a_x (initial_state mirror_disk)
  = (Return (mkResult "a/x" "error" "backup/x"
               (Some "[Errno 13] Permission denied: 'backup/x'")),
     initial_state mirror_disk).
Proof.
  split.
  - pose proof (proj1 (proj2 (X18_branch_selection mirror_env "backup" a_y
                                (initial_state mirror_disk)))) as Hclone.
    cbv zeta in Hclone.
    destruct (Hclone (or_introl eq_refl)) as (_ & _ & _ & Hdone).
    apply (proj1 (proj2 Hdone)); [vm_compute; discriminate | reflexivity].
  - apply (proj2 (proj2 (X18_branch_selection Edge.locked_env "backup" a_x
                           (initial_state mirror_disk)))
             (Edge.permission_denied "backup/x")).
    left. reflexivity.
Defined.

(** Witness of C2: the pool of the two-organization forge holds
    [acme/api] twice. *)
Lemma C2_witness :
  exists out,
    fetch_all_repositories two_orgs_env 5 (initial_state [])
    = (Return out, snd (accumulate two_orgs_env 5 (initial_state []))) /\
    NoDup (map nameWithOwner out) /\
    (forall k, In k (map nameWithOwner out) <->
               In k (map nameWithOwner [dotfiles; api; api])) /\
    (forall r, In r out <-> last_seen r [dotfiles; api; api]).
Proof.
  apply (C2_one_descriptor_per_full_name two_orgs_env 5 (initial_state [])).
  vm_compute. reflexivity.
Defined.

(** Witness of C3: the second page request is answered with status
    502. *)
Lemma C3_witness :
  In (mkRequest (Some [("repoCursor", Some "1")]), inr bad_gateway)
     (requests (snd (fetch_all_repositories outage_env 5 (initial_state 0)))) /\
  fst (fetch_all_repositories outage_env 5 (initial_state 0))
  = Raise (Exception "GraphQL query failed: 502").
Proof.
  assert (Hin : In (mkRequest (Some [("repoCursor", Some "1")]),
                    inr bad_gateway)
                   (requests (snd (fetch_all_repositories outage_env 5
                                     (initial_state 0)))))
    by (vm_compute; right; left; reflexivity).
  split; [exact Hin|].
  apply (proj1 (C3_failed_page_fails_enumeration outage_env 5 0 _ _ Hin)).
  vm_compute. discriminate.
Defined.

(** Witness of X19: in the mirror, [backup/x] is a clone; the fetch
    exits with 1 and the pull with 0. *)
Lemma X19_witness :
  fst (clone_or_update_repo mirror_env "backup" a_x (initial_state mirror_disk))
  = Return (mkResult "a/x" "updated" "backup/x" None).
Proof.
  pose proof (X19_update_follows_pull mirror_env "backup" a_x
                (initial_state mirror_disk) (conj eq_refl eq_refl)) as Hup.
  cbv zeta in Hup.
  change (fst (spawn mirror_env (world (initial_state mirror_disk))
                 (git_fetch (repo_path mirror_env "backup" a_x))))
    with (@inr exn completed (mkCompleted 1 [] [])) in Hup.
  cbv beta iota in Hup. destruct Hup as (_ & Hpull).
  change (fst (spawn mirror_env
                 (snd (spawn mirror_env (world (initial_state mirror_disk))
                         (git_fetch (repo_path mirror_env "backup" a_x))))
                 (git_pull (repo_path mirror_env "backup" a_x))))
    with (@inr exn completed (mkCompleted 0 [] [])) in Hpull.
  cbv beta iota in Hpull. apply (proj1 Hpull). reflexivity.
Defined.

(** Witness of C9: three descriptors under a cap of two. *)
Lemma C9_witness :
  (Z.of_nat (in_flight (tasks (run_schedule mirror_env "backup" round_robin
       (initial_pool 2 [a_x; a_y; b_x] (initial_state mirror_disk))))) <= 2)%Z.
Proof.
  apply (C9_concurrency_cap mirror_env "backup" 2 [a_x; a_y; b_x]
           (initial_state mirror_disk) round_robin); simpl; lia.
Defined.

(** Witness of C10: [a/x] and [b/x] in the mirror. *)
Lemma C10_witness :
  repo_path mirror_env "backup" a_x = "backup/x" /\
  repo_path mirror_env "backup" b_x = "backup/x".
Proof.
  assert (Hname : name a_x = name b_x) by reflexivity.
  assert (Hfull : nameWithOwner a_x <> nameWithOwner b_x)
    by (vm_compute; discriminate).
  pose proof (C10_short_name_collision mirror_env "backup" a_x b_x
                (initial_state mirror_disk) (initial_state mirror_disk)
                Hname Hfull) as Hc.
  split; [exact (proj1 Hc) | exact (proj1 (proj2 Hc))].
Defined.

(** C5.  In the mirror [backup/y] does not exist; git exits from the
    clone with 128 and writes the byte [0xff] on stderr, which is not
    UTF-8.  The sync runs the clone command alone; having set the
    status to [clone_failed] it decodes stderr, the decoding raises
    and the handler overwrites the status: the result has status
    [error] with the codec's message, not [clone_failed] with the
    captured stderr. *)
Theorem C5_garbled_clone_failure :
  let run :=
    clone_or_update_repo garbled_env "backup" a_y (initial_state mirror_disk) in
  path_exists garbled_env mirror_disk (repo_path garbled_env "backup" a_y)
  = inr false /\
  spawned (snd run)
  = [(git_clone (sshUrl a_y) "backup/y", inr (mkCompleted 128 [] [xff]))] /\
  decode garbled_env [xff] = inl (Exception (utf8_message [xff])) /\
  fst run
  = Return (mkResult "a/y" "error" "backup/y" (Some (utf8_message [xff]))).
Proof. vm_compute. repeat split. Qed.

(** C6.  In the mirror [backup/x] is a clone; the fetch exits with 0,
    the pull exits with 1 and writes the byte [0xff] on stderr, which
    is not UTF-8.  The sync runs the fetch and the pull; having set
    the status to [update_failed] it decodes stderr, the decoding
    raises and the handler overwrites the status: the result has
    status [error] with the codec's message, not [update_failed] with
    the pull's captured stderr. *)
Theorem C6_garbled_pull_failure :
  let run :=
    clone_or_update_repo garbled_env "backup" a_x (initial_state mirror_disk) in
  path_exists garbled_env mirror_disk "backup/x" = inr true /\
  path_exists garbled_env mirror_disk "backup/x/.git" = inr true /\
  spawned (snd run)
  = [(git_fetch "backup/x", inr (mkCompleted 0 [] []));
     (git_pull "backup/x", inr (mkCompleted 1 [] [xff]))] /\
  decode garbled_env [xff] = inl (Exception (utf8_message [xff])) /\
  fst run
  = Return (mkResult "a/x" "error" "backup/x" (Some (utf8_message [xff]))).
Proof. vm_compute. repeat split. Qed.

(** Counterexample to C9 as stated: one descriptor under a cap of
    zero; no task ever enters the block and [gather] never returns. *)
Lemma C9_cap_zero_starves :
  (0 < Z.of_nat (List.length [a_x]))%Z /\
  starved mirror_env "backup" 0 [a_x] (initial_state mirror_disk).
Proof.
  split; [simpl; lia|]. intros sched. unfold gather. cbn [fst].
  assert (Hstay : run_schedule mirror_env "backup" sched
                    (initial_pool 0 [a_x] (initial_state mirror_disk))
                  = initial_pool 0 [a_x] (initial_state mirror_disk)).
  { induction sched as [|i sched IH]; [reflexivity|].
    cbn [run_schedule].
    replace (step mirror_env "backup" i
               (initial_pool 0 [a_x] (initial_state mirror_disk)))
      with (@None (pool Sim.disk)); [exact IH|].
    destruct i as [|[|i]]; reflexivity. }
  rewrite Hstay. reflexivity.
Qed.

(** * Further properties *)

(** ** Deduplication: order and idempotence *)

Module DedupFacts.

Lemma keys_set (k : string) (v : repo) (d : Dict.t repo) :
  Dict.keys (Dict.set k v d) = note_key (Dict.keys d) k.
Proof.
  unfold note_key, Dict.keys.
  induction d as [|[k0 v0] d IH]; simpl; [reflexivity|].
  destruct (String.eqb_spec k k0) as [->|Hk]; simpl; [reflexivity|].
  rewrite IH. destruct (existsb (String.eqb k) (map fst d)); reflexivity.
Qed.

Lemma fold_keys (l : list repo) (d : Dict.t repo) :
  Dict.keys (fold_left dedup_step l d)
  = fold_left note_key (map nameWithOwner l) (Dict.keys d).
Proof.
  revert d. induction l as [|r l IH]; intros d; simpl; [reflexivity|].
  rewrite IH. unfold dedup_step. rewrite keys_set. reflexivity.
Qed.

Lemma set_fresh (k : string) (v : repo) (d : Dict.t repo) :
  ~ In k (Dict.keys d) -> Dict.set k v d = d ++ [(k, v)].
Proof.
  unfold Dict.keys.
  induction d as [|[k0 v0] d IH]; simpl; intros Hnot; [reflexivity|].
  destruct (String.eqb_spec k k0) as [->|Hk]; [tauto|].
  rewrite IH by tauto. reflexivity.
Qed.

Lemma fold_fresh (l : list repo) :
  forall d,
    NoDup (map nameWithOwner l) ->
    (forall k, In k (map nameWithOwner l) -> ~ In k (Dict.keys d)) ->
    fold_left dedup_step l d = d ++ map (fun r => (nameWithOwner r, r)) l.
Proof.
  induction l as [|r l IH]; intros d Hnd Hfresh; simpl.
  - rewrite app_nil_r. reflexivity.
  - inversion Hnd as [|? ? Hnot Hnd']; subst.
    change (dedup_step d r) with (Dict.set (nameWithOwner r) r d).
    rewrite set_fresh by (apply Hfresh; left; reflexivity).
    rewrite IH; [rewrite <- app_assoc; reflexivity | assumption |].
    intros k Hin. unfold Dict.keys. rewrite map_app, in_app_iff. simpl.
    intros [Hd|[Hk|[]]].
    + apply (Hfresh k); [right; assumption | exact Hd].
    + subst k. contradiction.
Qed.

(** The values of a deduplicated pool are stored under their own full
    names. *)
Lemma values_names (pool : list repo) :
  map nameWithOwner (Dict.values (unique_repos pool))
  = Dict.keys (unique_repos pool).
Proof.
  unfold Dict.values, Dict.keys. rewrite map_map. apply map_ext_in.
  intros [k v] Hin. simpl.
  assert (Hget : Dict.get k (unique_repos pool) = Some v).
  { apply DictFacts.get_In; [|assumption].
    unfold unique_repos. apply fold_dedup_NoDup. constructor. }
  unfold unique_repos in Hget. rewrite fold_dedup_get in Hget. simpl in Hget.
  destruct (last_named k pool) as [x|] eqn:Hl; [|discriminate].
  injection Hget as ->. apply last_named_Some in Hl. tauto.
Qed.

Lemma names_in_order (pool : list repo) :
  map nameWithOwner (Dict.values (unique_repos pool))
  = first_occurrences (map nameWithOwner pool).
Proof.
  rewrite values_names. unfold unique_repos, first_occurrences.
  rewrite fold_keys. reflexivity.
Qed.

End DedupFacts.

(** X4.  The list [fetch_all_repositories] builds from a pool keeps the
    full names in the order in which they first occur in the pool; a
    pool without repeated full names comes back unchanged; and
    deduplicating twice is deduplicating once. *)
Theorem X4_dedup_order_and_idempotence (pool : list repo) :
  let out := Dict.values (unique_repos pool) in
  map nameWithOwner out = first_occurrences (map nameWithOwner pool) /\
  (NoDup (map nameWithOwner pool) -> out = pool) /\
  Dict.values (unique_repos out) = out /\
  List.length out <= List.length pool.
Proof.
  cbv zeta.
  assert (Hid : forall l, NoDup (map nameWithOwner l) ->
                          Dict.values (unique_repos l) = l).
  { intros l Hnd. unfold unique_repos.
    rewrite DedupFacts.fold_fresh; [|assumption|intros k _ []].
    unfold Dict.values. simpl. rewrite map_map. simpl. apply map_id. }
  destruct (unique_repos_spec pool) as (Hnd & Hnames & _).
  repeat split.
  - apply DedupFacts.names_in_order.
  - apply Hid.
  - apply Hid. assumption.
  - rewrite <- (length_map nameWithOwner), <- (length_map nameWithOwner pool).
    apply NoDup_incl_length; [assumption|].
    intros k Hin. apply Hnames. assumption.
Qed.

(** ** The pagination loops against any server *)

Module LoopFacts.

Section Loops.

Context {W : Type} (E : Env W).

Lemma graphql_query_page (vars : variables) (s : state W) :
  vars <> [] ->
  let rq := mkRequest (Some vars) in
  let r := fst (post E (world s) rq) in
  let s1 := mkState (snd (post E (world s) rq)) (username s)
                    (requests s ++ [(rq, r)]) (spawned s) in
  graphql_query E vars s =
  (match page_of r with
   | Some v => Return v
   | None => match query_failure r with
             | Some e => Raise e
             | None => Hang
             end
   end, s1) /\
  (page_of r = None -> query_failure r <> None).
Proof.
  intros Hne. cbv zeta. rewrite graphql_query_run. cbv zeta.
  destruct vars as [|x vars]; [congruence|].
  destruct (post E (world s) _) as [[e|[st [e|body]]] w']; simpl;
    try (split; [reflexivity | discriminate]).
  - destruct (negb (st =? 200)%Z); (split; [reflexivity | discriminate]).
  - destruct (negb (st =? 200)%Z); [split; [reflexivity | discriminate]|].
    destruct (errors body); (split; [reflexivity | discriminate]).
Qed.

Lemma remember_login_state (l : string) (s : state W) :
  remember_login l s =
  (Return tt,
   mkState (world s) (logged_in l (username s)) (requests s) (spawned s)).
Proof.
  unfold remember_login, logged_in.
  destruct s as [w [[|a x]|] rs sp]; reflexivity.
Qed.

(** One iteration of the first [while True], against any server. *)
Lemma personal_loop_unfold (fuel : nat) (all_repos : list repo)
    (c : option cursor) (s : state W) :
  let rq := repo_cursor_request c in
  let r := fst (post E (world s) rq) in
  let w' := snd (post E (world s) rq) in
  personal_loop E (S fuel) all_repos c s =
  match page_of r with
  | Some v =>
      let s1 := mkState w' (logged_in (login v) (username s))
                        (requests s ++ [(rq, r)]) (spawned s) in
      if hasNextPage (page_info (repositories v))
      then personal_loop E fuel (all_repos ++ nodes (repositories v))
                         (endCursor (page_info (repositories v))) s1
      else (Return (all_repos ++ nodes (repositories v), v), s1)
  | None =>
      (match query_failure r with Some e => Raise e | None => Hang end,
       mkState w' (username s) (requests s ++ [(rq, r)]) (spawned s))
  end.
Proof.
  cbv zeta. cbn [personal_loop]. unfold bind at 1.
  destruct (graphql_query_page [("repoCursor", c)] s) as (Hq & _);
    [discriminate|]. cbv zeta in Hq. rewrite Hq. clear Hq.
  unfold repo_cursor_request.
  destruct (page_of _) as [v|]; [|destruct (query_failure _); reflexivity].
  unfold bind at 1. rewrite remember_login_state.
  cbn [username world requests spawned].
  destruct (hasNextPage (page_info (repositories v))); reflexivity.
Qed.

(** One iteration of the inner [while True] of step 2, against any
    server. *)
Lemma org_loop_unfold (fuel : nat) (all_repos : list repo)
    (c : option cursor) (s : state W) :
  let rq := org_cursor_request c in
  let r := fst (post E (world s) rq) in
  let s1 := mkState (snd (post E (world s) rq)) (username s)
                    (requests s ++ [(rq, r)]) (spawned s) in
  org_loop E (S fuel) all_repos c s =
  match page_of r with
  | Some v =>
      match first_org_collection v with
      | None => (Return all_repos, s1)
      | Some conn =>
          if hasNextPage (page_info conn)
          then org_loop E fuel (all_repos ++ nodes conn)
                        (endCursor (page_info conn)) s1
          else (Return (all_repos ++ nodes conn), s1)
      end
  | None =>
      (match query_failure r with Some e => Raise e | None => Hang end, s1)
  end.
Proof.
  cbv zeta. cbn [org_loop]. unfold bind at 1.
  destruct (graphql_query_page [("orgCursor", c)] s) as (Hq & _);
    [discriminate|]. cbv zeta in Hq. rewrite Hq. clear Hq.
  unfold org_cursor_request, first_org_collection.
  destruct (page_of _) as [v|]; [|destruct (query_failure _); reflexivity].
  destruct (organizations v) as [|org0 orgs]; [reflexivity|].
  destruct (hasNextPage (page_info (org_repositories org0))); reflexivity.
Qed.

Lemma last_cons_nonempty {A : Type} (x d : A) (l : list A) :
  l <> [] -> last (x :: l) d = last l d.
Proof. destruct l; [congruence | reflexivity]. Qed.

(** What the first loop leaves in the log, whatever the server does. *)
Lemma personal_loop_trace (fuel : nat) :
  forall all_repos c s,
    exists new,
      requests (snd (personal_loop E fuel all_repos c s)) = requests s ++ new /\
      spawned (snd (personal_loop E fuel all_repos c s)) = spawned s /\
      follows_cursors repo_cursor_request own_collection c new /\
      List.length new <= fuel /\
      match fst (personal_loop E fuel all_repos c s) with
      | Return (pool, v) =>
          pool = all_repos ++ nodes_of own_collection new /\
          stops_on own_collection new /\
          exists rq r, last new (rq, r) = (rq, r) /\ page_of r = Some v
      | Raise e =>
          exists rq r, last new (rq, r) = (rq, r) /\ new <> [] /\
                       query_failure r = Some e
      | Hang => List.length new = fuel
      end.
Proof.
  induction fuel as [|fuel IH]; intros all_repos c s.
  - exists []. simpl. rewrite app_nil_r. repeat split; auto.
  - rewrite personal_loop_unfold. cbv zeta.
    set (rq := repo_cursor_request c).
    set (r := fst (post E (world s) rq)).
    set (w' := snd (post E (world s) rq)).
    destruct (graphql_query_page [("repoCursor", c)] s) as (_ & Hfail);
      [discriminate|]. cbv zeta in Hfail. fold rq r in Hfail.
    destruct (page_of r) as [v|] eqn:Hpage.
    + destruct (hasNextPage (page_info (repositories v))) eqn:Hnext.
      * set (s1 := mkState w' _ _ _).
        destruct (IH (all_repos ++ nodes (repositories v))
                     (endCursor (page_info (repositories v))) s1)
          as (new & Hreq & Hsp & Hfol & Hlen & Hout).
        exists ((rq, r) :: new). rewrite Hreq, Hsp. unfold s1 at 1 2.
        cbn [requests spawned]. rewrite <- app_assoc.
        split; [reflexivity|]. split; [reflexivity|]. split.
        { cbn [follows_cursors]. split; [reflexivity|].
          destruct new as [|x new]; [exact I|].
          exists v, (repositories v). repeat split; assumption. }
        split; [simpl; lia|].
        destruct (fst (personal_loop E fuel _ _ s1)) as [[pool v']|e|].
        -- destruct Hout as (Hpool & (rq' & r' & v'' & Hlast & Hne & Hp & Hstop)
                              & rq2 & r2 & Hlast2 & Hp2).
           split; [|split].
           ++ rewrite Hpool. cbn [nodes_of]. rewrite Hpage. cbn [own_collection].
              rewrite app_assoc. reflexivity.
           ++ exists rq', r', v''. rewrite last_cons_nonempty by assumption.
              repeat split; try assumption; discriminate.
           ++ exists rq2, r2. rewrite last_cons_nonempty by assumption.
              split; assumption.
        -- destruct Hout as (rq' & r' & Hlast & Hne & Hq).
           exists rq', r'. rewrite last_cons_nonempty by assumption.
           repeat split; try assumption; discriminate.
        -- simpl. lia.
      * exists [(rq, r)]. cbn [fst snd requests spawned].
        repeat split; try reflexivity.
        -- simpl. lia.
        -- cbn [nodes_of]. rewrite Hpage. cbn [own_collection].
           rewrite app_nil_r. reflexivity.
        -- exists rq, r, v. cbn [own_collection].
           repeat split; try assumption; discriminate.
        -- exists rq, r. split; [reflexivity | assumption].
    + specialize (Hfail Hpage).
      destruct (query_failure r) as [e|] eqn:Hqf; [|exfalso; apply Hfail; exact Hqf].
      exists [(rq, r)]. cbn [fst snd requests spawned].
      repeat split; try reflexivity.
      * simpl. lia.
      * exists rq, r. repeat split; try assumption; discriminate.
Qed.

(** What the loop of one iteration of step 2 leaves in the log. *)
Lemma org_loop_trace (fuel : nat) :
  forall all_repos c s,
    exists new,
      requests (snd (org_loop E fuel all_repos c s)) = requests s ++ new /\
      spawned (snd (org_loop E fuel all_repos c s)) = spawned s /\
      username (snd (org_loop E fuel all_repos c s)) = username s /\
      follows_cursors org_cursor_request first_org_collection c new /\
      List.length new <= fuel /\
      match fst (org_loop E fuel all_repos c s) with
      | Return pool =>
          pool = all_repos ++ nodes_of first_org_collection new /\
          stops_on first_org_collection new
      | Raise e =>
          exists rq r, last new (rq, r) = (rq, r) /\ new <> [] /\
                       query_failure r = Some e
      | Hang => List.length new = fuel
      end.
Proof.
  induction fuel as [|fuel IH]; intros all_repos c s.
  - exists []. simpl. rewrite app_nil_r. repeat split; auto.
  - rewrite org_loop_unfold. cbv zeta.
    set (rq := org_cursor_request c).
    set (r := fst (post E (world s) rq)).
    set (s1 := mkState _ _ _ _).
    destruct (graphql_query_page [("orgCursor", c)] s) as (_ & Hfail);
      [discriminate|]. cbv zeta in Hfail. fold rq r in Hfail.
    destruct (page_of r) as [v|] eqn:Hpage.
    + destruct (first_org_collection v) as [conn|] eqn:Hcoll.
      * destruct (hasNextPage (page_info conn)) eqn:Hnext.
        -- destruct (IH (all_repos ++ nodes conn)
                        (endCursor (page_info conn)) s1)
             as (new & Hreq & Hsp & Hus & Hfol & Hlen & Hout).
           exists ((rq, r) :: new). rewrite Hreq, Hsp, Hus. unfold s1 at 1 2 3.
           cbn [requests spawned username]. rewrite <- app_assoc.
           split; [reflexivity|]. split; [reflexivity|].
           split; [reflexivity|]. split.
           { cbn [follows_cursors]. split; [reflexivity|].
             destruct new as [|x new]; [exact I|].
             exists v, conn. repeat split; assumption. }
           split; [simpl; lia|].
           destruct (fst (org_loop E fuel _ _ s1)) as [pool|e|].
           ++ destruct Hout as (Hpool & rq' & r' & v'' & Hlast & Hne & Hp & Hstop).
              split.
              ** rewrite Hpool. cbn [nodes_of]. rewrite Hpage, Hcoll.
                 rewrite app_assoc. reflexivity.
              ** exists rq', r', v''. rewrite last_cons_nonempty by assumption.
                 repeat split; try assumption; discriminate.
           ++ destruct Hout as (rq' & r' & Hlast & Hne & Hq).
              exists rq', r'. rewrite last_cons_nonempty by assumption.
              repeat split; try assumption; discriminate.
           ++ simpl. lia.
        -- exists [(rq, r)]. cbn [fst snd]. unfold s1.
           cbn [requests spawned username].
           repeat split; try reflexivity.
           ++ simpl. lia.
           ++ cbn [nodes_of]. rewrite Hpage, Hcoll.
              rewrite app_nil_r. reflexivity.
           ++ exists rq, r, v. rewrite Hcoll.
              repeat split; try assumption; discriminate.
      * exists [(rq, r)]. cbn [fst snd]. unfold s1.
        cbn [requests spawned username].
        repeat split; try reflexivity.
        -- simpl. lia.
        -- cbn [nodes_of]. rewrite Hpage, Hcoll. rewrite app_nil_r. reflexivity.
        -- exists rq, r, v. rewrite Hcoll.
           repeat split; try assumption; discriminate.
    + specialize (Hfail Hpage).
      destruct (query_failure r) as [e|] eqn:Hqf; [|exfalso; apply Hfail; exact Hqf].
      exists [(rq, r)]. cbn [fst snd]. unfold s1.
      cbn [requests spawned username].
      repeat split; try reflexivity.
      * simpl. lia.
      * exists rq, r. repeat split; try assumption; discriminate.
Qed.

(** What the [for] of step 2 leaves in the log: one run of the inner
    loop per organization it iterates over. *)
Lemma for_orgs_trace (fuel : nat) (orgs : list organization) :
  forall all_repos s,
    exists logs,
      requests (snd (for_orgs E fuel orgs all_repos s))
        = requests s ++ List.concat logs /\
      spawned (snd (for_orgs E fuel orgs all_repos s)) = spawned s /\
      List.length logs <= List.length orgs /\
      Forall (follows_cursors org_cursor_request first_org_collection None)
             logs /\
      forall pool, fst (for_orgs E fuel orgs all_repos s) = Return pool ->
        List.length logs = List.length orgs /\
        Forall (stops_on first_org_collection) logs /\
        pool = all_repos
               ++ List.concat (map (nodes_of first_org_collection) logs).
Proof.
  induction orgs as [|org orgs IH]; intros all_repos s.
  - exists []. cbn. rewrite !app_nil_r.
    refine (conj eq_refl (conj eq_refl (conj (le_n _) (conj _ _)))).
    + constructor.
    + intros pool [= <-]. repeat split. constructor.
  - cbn [for_orgs]. unfold bind.
    destruct (org_loop_trace fuel all_repos None s)
      as (new & Hreq & Hsp & _ & Hfol & _ & Hout).
    destruct (org_loop E fuel all_repos None s) as [[pool1|e|] s1];
      cbn [fst snd] in *.
    + destruct (IH pool1 s1) as (logs & Hreq' & Hsp' & Hlen & Hall & Hret).
      destruct Hout as (Hpool1 & Hstop).
      exists (new :: logs). rewrite Hreq', Hsp', Hreq, Hsp.
      cbn [List.concat List.length map]. rewrite <- app_assoc.
      refine (conj eq_refl (conj eq_refl (conj _ (conj _ _)))).
      * lia.
      * constructor; assumption.
      * intros pool Hp. destruct (Hret pool Hp) as (Hl & Hstops & ->).
        split; [lia|]. split; [constructor; assumption|].
        rewrite Hpool1, <- app_assoc. reflexivity.
    + exists [new]. cbn [List.concat List.length]. rewrite app_nil_r.
      refine (conj Hreq (conj Hsp (conj _ (conj _ _)))).
      * lia.
      * constructor; [assumption | constructor].
      * intros pool Hp. discriminate Hp.
    + exists [new]. cbn [List.concat List.length]. rewrite app_nil_r.
      refine (conj Hreq (conj Hsp (conj _ (conj _ _)))).
      * lia.
      * constructor; [assumption | constructor].
      * intros pool Hp. discriminate Hp.
Qed.

End Loops.

End LoopFacts.

(** X5.  Against any server, the requests of step 1 follow the
    cursors: the first carries no cursor, each further one is made
    only after a page that reported a next page and carries that
    page's [endCursor].  When the loop returns, its pool is the nodes
    of the pages received, in order, and the last page reported no
    next page; when it raises, the last exchange is the failed one;
    otherwise it has used up every iteration it was allowed. *)
Theorem X5_step_one_follows_cursors {W : Type} (E : Env W) (fuel : nat)
    (s : state W) :
  let run := personal_loop E fuel [] None s in
  exists new,
    requests (snd run) = requests s ++ new /\
    follows_cursors repo_cursor_request own_collection None new /\
    List.length new <= fuel /\
    (forall pool v, fst run = Return (pool, v) ->
       pool = nodes_of own_collection new /\
       stops_on own_collection new) /\
    (forall e, fst run = Raise e ->
       exists rq r, last new (rq, r) = (rq, r) /\ new <> [] /\
                    query_failure r = Some e) /\
    (fst run = Hang -> List.length new = fuel).
Proof.
  cbv zeta.
  destruct (LoopFacts.personal_loop_trace E fuel [] None s)
    as (new & Hreq & _ & Hfol & Hlen & Hout).
  exists new. refine (conj Hreq (conj Hfol (conj Hlen _))).
  destruct (fst (personal_loop E fuel [] None s)) as [[pool v]|e|].
  - refine (conj _ (conj _ _)).
    + intros pool' v' [= <- <-]. destruct Hout as (Hpool & Hstop & _).
      split; assumption.
    + intros e He. discriminate He.
    + intros He. discriminate He.
  - refine (conj _ (conj _ _)).
    + intros pool v He. discriminate He.
    + intros e' [= <-]. exact Hout.
    + intros He. discriminate He.
  - refine (conj _ (conj _ _)).
    + intros pool v He. discriminate He.
    + intros e He. discriminate He.
    + intros _. exact Hout.
Qed.

(** X6.  Against any server, the enumeration posts the requests of
    step 1 and then, for each organization listed on the last page of
    step 1, one run of requests that starts without a cursor and
    follows the cursors of the first organization of each answer; it
    runs no process.  The list it returns is the deduplication of
    the nodes of the step-1 pages followed by the nodes of those
    first-organization pages. *)
Theorem X6_enumeration_reads {W : Type} (E : Env W) (fuel : nat) (w : W) :
  let run := fetch_all_repositories E fuel (initial_state w) in
  exists own logs,
    requests (snd run) = own ++ List.concat logs /\
    spawned (snd run) = [] /\
    follows_cursors repo_cursor_request own_collection None own /\
    Forall (follows_cursors org_cursor_request first_org_collection None)
           logs /\
    forall out, fst run = Return out ->
      (exists rq r v,
         last own (rq, r) = (rq, r) /\ own <> [] /\ page_of r = Some v /\
         hasNextPage (page_info (repositories v)) = false /\
         List.length logs = List.length (organizations v)) /\
      Forall (stops_on first_org_collection) logs /\
      out = Dict.values
              (unique_repos
                 (nodes_of own_collection own
                  ++ List.concat (map (nodes_of first_org_collection) logs))).
Proof.
  cbv zeta. unfold fetch_all_repositories, accumulate, bind.
  destruct (LoopFacts.personal_loop_trace E fuel [] None (initial_state w))
    as (own & Hreq & Hsp & Hfol & _ & Hout).
  destruct (personal_loop E fuel [] None (initial_state w))
    as [[[pool v]|e|] s1]; cbn [fst snd requests spawned initial_state] in *.
  - destruct (LoopFacts.for_orgs_trace E fuel (organizations v) pool s1)
      as (logs & Hreq' & Hsp' & _ & Hall & Hret).
    destruct (for_orgs E fuel (organizations v) pool s1) as [[pool2|e|] s2];
      cbn [fst snd] in *.
    + exists own, logs. unfold ret. cbn [fst snd].
      rewrite Hreq', Hsp', Hreq, Hsp.
      refine (conj eq_refl (conj eq_refl (conj Hfol (conj Hall _)))).
      intros out [= <-].
      destruct (Hret pool2 eq_refl) as (Hlen & Hstops & ->).
      destruct Hout as (-> & (rq & r & v' & Hlast & Hne & Hp & Hstop)
                        & rq2 & r2 & Hlast2 & Hp2).
      assert (Hsame : (rq, r) = (rq2, r2)).
      { rewrite <- Hlast, <- Hlast2. destruct own as [|x own]; [congruence|].
        clear. revert x. induction own as [|y own IH]; intros x;
          [reflexivity | apply (IH y)]. }
      injection Hsame as <- <-.
      assert (v' = v) by congruence. subst v'.
      cbn [own_collection] in Hstop.
      split; [|split; [assumption | reflexivity]].
      exists rq, r, v. repeat split; assumption.
    + exists own, logs. rewrite Hreq', Hsp', Hreq, Hsp.
      refine (conj eq_refl (conj eq_refl (conj Hfol (conj Hall _)))).
      intros out Ho. discriminate Ho.
    + exists own, logs. rewrite Hreq', Hsp', Hreq, Hsp.
      refine (conj eq_refl (conj eq_refl (conj Hfol (conj Hall _)))).
      intros out Ho. discriminate Ho.
  - exists own, []. cbn [List.concat]. rewrite app_nil_r.
    refine (conj Hreq (conj Hsp (conj Hfol (conj (Forall_nil _) _)))).
    intros out Ho. discriminate Ho.
  - exists own, []. cbn [List.concat]. rewrite app_nil_r.
    refine (conj Hreq (conj Hsp (conj Hfol (conj (Forall_nil _) _)))).
    intros out Ho. discriminate Ho.
Qed.

(** X7.  The first loop has no bound of its own: against a server that
    answers every request with a page reporting a next page, it posts
    a request on every iteration it is allowed and never returns, and
    so the enumeration never returns either. *)
Theorem X7_no_bound_on_pages {W : Type} (E : Env W) (fuel : nat)
    (s : state W) :
  always_more E ->
  fst (personal_loop E fuel [] None s) = Hang /\
  List.length (requests (snd (personal_loop E fuel [] None s)))
    = List.length (requests s) + fuel /\
  fst (fetch_all_repositories E fuel s) = Hang.
Proof.
  intros Hmore.
  assert (Hloop : forall fuel acc c s,
            fst (personal_loop E fuel acc c s) = Hang /\
            List.length (requests (snd (personal_loop E fuel acc c s)))
              = List.length (requests s) + fuel).
  { clear fuel s. induction fuel as [|fuel IH]; intros acc c s.
    - split; [reflexivity | simpl; lia].
    - rewrite LoopFacts.personal_loop_unfold. cbv zeta.
      destruct (Hmore (world s) (repo_cursor_request c)) as (v & Hp & Hnext).
      rewrite Hp, Hnext.
      destruct (IH (acc ++ nodes (repositories v))
                   (endCursor (page_info (repositories v)))
                   (mkState (snd (post E (world s) (repo_cursor_request c)))
                      (logged_in (login v) (username s))
                      (requests s ++ [(repo_cursor_request c,
                         fst (post E (world s) (repo_cursor_request c)))])
                      (spawned s))) as (Hh & Hl).
      split; [exact Hh|]. rewrite Hl. cbn [requests].
      rewrite length_app. simpl. lia. }
  destruct (Hloop fuel [] None s) as (Hh & Hl).
  refine (conj Hh (conj Hl _)).
  unfold fetch_all_repositories, accumulate, bind.
  destruct (personal_loop E fuel [] None s) as [o s1].
  cbn [fst] in Hh. subst o. reflexivity.
Qed.

(** Witness of X7: the forge that keeps announcing a next page, seven
    iterations allowed. *)
Lemma X7_witness :
  fst (fetch_all_repositories Edge.endless_env 7 (initial_state tt)) = Hang /\
  List.length (requests (snd (personal_loop Edge.endless_env 7 [] None
                                (initial_state tt)))) = 7.
Proof.
  assert (Hmore : always_more Edge.endless_env).
  { intros w rq. exists Edge.endless_page. split; reflexivity. }
  destruct (X7_no_bound_on_pages Edge.endless_env 7 (initial_state tt) Hmore)
    as (_ & Hlen & Hhang).
  split; [exact Hhang | exact Hlen].
Defined.

(** X8.  On a simulated forge without organizations whose personal
    stream has [K] pages, [K >= 1], the enumeration posts exactly the
    [K] requests of step 1 and returns the deduplication of the nodes
    of all the pages, one descriptor for each full name that occurs. *)
Theorem X8_enumeration_without_organizations (f : Sim.forge)
    (git : command -> exn + completed) (codec : list byte -> string)
    (fuel : nat) (d : Sim.disk) :
  Sim.orgs f = [] ->
  1 <= List.length (Sim.personal f) <= fuel ->
  let run := fetch_all_repositories (Sim.env f git codec) fuel
               (initial_state d) in
  let pool := List.concat (Sim.personal f) in
  fst run = Return (Dict.values (unique_repos pool)) /\
  requests (snd run)
  = exchanges f personal_request 0 (List.length (Sim.personal f)) /\
  map nameWithOwner (Dict.values (unique_repos pool))
  = first_occurrences (map nameWithOwner pool).
Proof.
  intros Horgs Hlen run pool. subst run pool.
  unfold fetch_all_repositories, accumulate, bind.
  destruct (List.length (Sim.personal f)) as [|n] eqn:Hn; [lia|].
  change None with (cursor_at 0).
  rewrite (SimFacts.personal_loop_sim f git codec n 0 fuel [] (initial_state d))
    by lia.
  cbn [fst snd organizations Sim.view]. rewrite Horgs.
  cbn [map for_orgs]. unfold ret. cbn [fst snd requests initial_state skipn app].
  repeat split. apply DedupFacts.names_in_order.
Qed.

(** Witness of X8: the personal stream of two pages, no organization. *)
Lemma X8_witness :
  fst (fetch_all_repositories
         (Sim.env Scenario.two_pages Scenario.git_missing Scenario.utf8_message)
         5 (initial_state []))
  = Return [Scenario.dotfiles; Scenario.api].
Proof.
  pose proof (X8_enumeration_without_organizations Scenario.two_pages
                Scenario.git_missing Scenario.utf8_message 5 []
                eq_refl ltac:(simpl; lia)) as Hrun.
  cbv zeta in Hrun. destruct Hrun as (Hret & _).
  etransitivity; [exact Hret | reflexivity].
Defined.

(** ** What a status says about the git commands that ran *)

(** X9.  The status of a sync tells which git commands ran and how
    they ended: [cloned] and [clone_failed] mean that the clone
    command alone ran, and exited with 0, respectively with another
    code and a stderr that is well-formed UTF-8, which is the error
    detail; [updated] and [update_failed] mean the same of the pull
    command, run after a fetch that did not raise; [error] means that
    an existence check raised and no command ran, or that the last
    command raised, or exited with a non-zero code and a stderr that is
    not UTF-8. *)
Theorem X9_status_tells_what_ran {W : Type} (E : Env W)
    (target_dir : string) (r : repo) (s : state W) :
  let p := repo_path E target_dir r in
  let run := clone_or_update_repo E target_dir r s in
  exists res new,
    fst run = Return res /\
    spawned (snd run) = spawned s ++ new /\
    (status res = "cloned" ->
       exists done, new = [(git_clone (sshUrl r) p, inr done)] /\
                    returncode done = 0%Z /\ error res = None) /\
    (status res = "clone_failed" ->
       exists done, new = [(git_clone (sshUrl r) p, inr done)] /\
                    returncode done <> 0%Z /\
                    utf8_valid (stderr done) = true /\
                    error res = Some (string_of_list_byte (stderr done))) /\
    (status res = "updated" ->
       exists proc_fetch proc_pull,
         new = [(git_fetch p, inr proc_fetch); (git_pull p, inr proc_pull)] /\
         returncode proc_pull = 0%Z /\ error res = None) /\
    (status res = "update_failed" ->
       exists proc_fetch proc_pull,
         new = [(git_fetch p, inr proc_fetch); (git_pull p, inr proc_pull)] /\
         returncode proc_pull <> 0%Z /\
         utf8_valid (stderr proc_pull) = true /\
         error res = Some (string_of_list_byte (stderr proc_pull))) /\
    (status res = "error" ->
       (new = [] /\
        exists e, check_raises E (world s) p e /\
                  error res = Some (str_of_exn e)) \/
       (exists c o, last new (c, o) = (c, o) /\ new <> [] /\
          match o with
          | inl e => error res = Some (str_of_exn e)
          | inr done =>
              returncode done <> 0%Z /\
              utf8_valid (stderr done) = false /\
              error res = Some (codec_error E (stderr done))
          end)).
Proof.
  cbv zeta. unfold check_raises. sync_unfold. repeat sync_case;
    do 2 eexists; cbn [world username requests spawned];
    (split; [reflexivity|]);
    rewrite <- ?app_assoc;
    (split; [first [reflexivity | symmetry; apply app_nil_r]|]);
    cbn [status error set_status set_error app];
    refine (conj _ (conj _ (conj _ (conj _ _))));
    intros Hst; try discriminate Hst;
    try (eexists; repeat split; try reflexivity; assumption);
    try (do 2 eexists; repeat split; try reflexivity; assumption);
    try (right; do 2 eexists; split; [reflexivity|]; split; [discriminate|];
         first [ reflexivity | repeat split; assumption ]);
    try (left; split; [reflexivity|]; eexists; split;
         [ first [ left; reflexivity | right; split; reflexivity ]
         | reflexivity ]).
Qed.

Lemma ascii_utf8_valid (bs : list byte) :
  Forall is_ascii bs -> utf8_valid bs = true.
Proof.
  induction 1 as [|b bs Hb _ IH]; [reflexivity|].
  cbn [utf8_valid]. unfold in_range, is_ascii in *.
  replace (Byte.to_N b <=? 0x7F)%N with true
    by (symmetry; apply N.leb_le; exact Hb).
  replace (0x00 <=? Byte.to_N b)%N with true
    by (symmetry; apply N.leb_le; apply N.le_0_l).
  exact IH.
Qed.

(** X10.  When the processes write ASCII only on their stderr, a sync
    ends with status [error] only if an invocation raised, or an
    existence check raised and no command ran; a non-zero exit is
    always reported as [clone_failed] or [update_failed]. *)
Theorem X10_ascii_stderr_is_kept {W : Type} (E : Env W)
    (target_dir : string) (r : repo) (s : state W) :
  ascii_stderr E ->
  let p := repo_path E target_dir r in
  let run := clone_or_update_repo E target_dir r s in
  exists res new,
    fst run = Return res /\
    spawned (snd run) = spawned s ++ new /\
    (status res = "error" ->
       (exists c e, In (c, inl e) new) \/
       (new = [] /\ exists e, check_raises E (world s) p e)) /\
    (forall c done, last new (c, inr done) = (c, inr done) -> new <> [] ->
       returncode done <> 0%Z ->
       (status res = "clone_failed" \/ status res = "update_failed") /\
       error res = Some (string_of_list_byte (stderr done))).
Proof.
  intros Hascii. cbv zeta. unfold check_raises. sync_unfold.
  repeat sync_case;
    try match goal with
    | Hs : spawn _ _ _ = (inr ?d, _), Hu : utf8_valid (stderr ?d) = false |- _ =>
        rewrite (ascii_utf8_valid _ (Hascii _ _ _ _ Hs)) in Hu; discriminate Hu
    end;
    do 2 eexists; cbn [world username requests spawned];
    (split; [reflexivity|]);
    rewrite <- ?app_assoc;
    (split; [first [reflexivity | symmetry; apply app_nil_r]|]);
    cbn [status error set_status set_error app last];
    (split;
     [ intros Hst; try discriminate Hst;
       first
         [ left; do 2 eexists; cbn [In];
           first [left; reflexivity | right; left; reflexivity]
         | right; split; [reflexivity|]; eexists;
           first [left; reflexivity | right; split; reflexivity] ]
     | intros c done' Hlast Hne Hcode;
       try discriminate Hlast;
       first [ exfalso; apply Hne; reflexivity
             | injection Hlast as <- <-;
               first [ contradiction
                     | split; [first [left; reflexivity | right; reflexivity]
                              | reflexivity] ] ] ]).
Qed.

(** Witness of X10: git in the mirror writes plain text; the clone of
    [a/y] exits with 128 and is reported as [clone_failed]. *)
Lemma X10_witness :
  exists res new,
    fst (clone_or_update_repo Scenario.mirror_env "backup" Scenario.a_y
           (initial_state Scenario.mirror_disk)) = Return res /\
    spawned (snd (clone_or_update_repo Scenario.mirror_env "backup"
                    Scenario.a_y (initial_state Scenario.mirror_disk)))
    = [] ++ new /\
    (forall c done, last new (c, inr done) = (c, inr done) -> new <> [] ->
       returncode done <> 0%Z ->
       (status res = "clone_failed" \/ status res = "update_failed") /\
       error res = Some (string_of_list_byte (stderr done))).
Proof.
  assert (Hascii : ascii_stderr Scenario.mirror_env).
  { intros w c done w' Hspawn. cbn in Hspawn.
    unfold Scenario.mirror_git, Scenario.exited in Hspawn.
    destruct (String.eqb (Scenario.verb c) "fetch");
      [injection Hspawn as <- _; constructor|].
    destruct (String.eqb (Scenario.verb c) "clone");
      [|injection Hspawn as <- _; constructor].
    destruct (String.eqb (Scenario.clone_target c) "backup/y");
      injection Hspawn as <- _; [|constructor].
    cbn [stderr]. unfold is_ascii.
    repeat (constructor; [vm_compute; discriminate|]). constructor. }
  destruct (X10_ascii_stderr_is_kept Scenario.mirror_env "backup"
              Scenario.a_y (initial_state Scenario.mirror_disk) Hascii)
    as (res & new & Hret & Hsp & _ & Hkept).
  exists res, new. split; [exact Hret|]. split; [exact Hsp | exact Hkept].
Defined.

(** ** The summary *)

Module SummaryFacts.

Lemma is_failure_statuses (st : string) :
  In st statuses ->
  (if String.eqb st "cloned" then 1 else 0)
  + (if String.eqb st "updated" then 1 else 0)
  + (if contains_failed st || String.eqb st "error" then 1 else 0) = 1.
Proof.
  intros [<-|[<-|[<-|[<-|[<-|[]]]]]]; reflexivity.
Qed.

Lemma at_most_one_count (st : string) :
  (if String.eqb st "cloned" then 1 else 0)
  + (if String.eqb st "updated" then 1 else 0)
  + (if contains_failed st || String.eqb st "error" then 1 else 0) <= 1.
Proof.
  destruct (String.eqb_spec st "cloned") as [->|Hc]; [cbn; lia|].
  destruct (String.eqb_spec st "updated") as [->|Hu]; [cbn; lia|].
  destruct (contains_failed st || String.eqb st "error"); cbn; lia.
Qed.

Lemma count_if_cons {A : Type} (f : A -> bool) (x : A) (l : list A) :
  count_if f (x :: l) = (if f x then 1 else 0) + count_if f l.
Proof. unfold count_if. simpl. destruct (f x); reflexivity. Qed.

Lemma summary_spec (results : list result) :
  let printed := print_summary results in
  cloned printed + updated printed + failed printed <= List.length results /\
  List.length (failures printed) = failed printed /\
  map fst (failures printed) = map result_name (filter is_failure results) /\
  (Forall (fun r => In (status r) statuses) results ->
   cloned printed + updated printed + failed printed = List.length results) /\
  (Forall (fun r => error r <> None) (filter is_failure results) ->
   Forall2 failure_line (filter is_failure results) (failures printed)) /\
  (forall r, In r results -> is_failure r = true -> error r = None ->
     In (result_name r, "Unknown error") (failures printed)).
Proof.
  cbv zeta. unfold print_summary. cbn [cloned updated failed failures].
  refine (conj _ (conj _ (conj _ (conj _ (conj _ _))))).
  - induction results as [|r results IH]; [cbn; lia|].
    rewrite !count_if_cons. cbn [List.length].
    pose proof (at_most_one_count (status r)) as H1.
    unfold is_failure at 1. lia.
  - unfold count_if. rewrite length_map. reflexivity.
  - rewrite map_map. apply map_ext. reflexivity.
  - intros Hall. induction Hall as [|r results Hr _ IH]; [reflexivity|].
    rewrite !count_if_cons. cbn [List.length].
    pose proof (is_failure_statuses (status r) Hr) as H1.
    unfold is_failure at 1. lia.
  - intros Hall. induction Hall as [|r l Hr _ IH]; cbn [map]; constructor.
    + unfold failure_line. destruct (error r) as [e|]; [|congruence].
      exists e. split; reflexivity.
    + exact IH.
  - intros r Hin Hfail Herr. apply in_map_iff. exists r.
    rewrite Herr. split; [reflexivity|]. apply filter_In. split; assumption.
Qed.

End SummaryFacts.


(** ** What [run] does around the sync *)

Module RunFacts.

Section Facts.

Context {W : Type} (E : Env W).

Lemma clone_or_update_repo_well_formed (target_dir : string) (r : repo)
    (s : state W) :
  exists res s',
    clone_or_update_repo E target_dir r s = (Return res, s') /\
    well_formed res.
Proof.
  unfold well_formed. sync_unfold. repeat sync_case;
    do 2 eexists; (split; [reflexivity|]);
    cbn [status error set_status set_error statuses failure_statuses In];
    (split; [tauto|]);
    first
      [ solve [split; [intros _; tauto | intros _; discriminate]]
      | solve [split;
                [ intros H; exfalso; apply H; reflexivity
                | intros H;
                  repeat (destruct H as [H|H]; try discriminate H);
                  contradiction ]] ].
Qed.

Lemma Forall_set_nth {A : Type} (P : A -> Prop) (l : list A) :
  Forall P l -> forall i x, P x -> Forall P (set_nth i x l).
Proof.
  induction 1 as [|a l Ha Hl IH]; intros [|i] x Hx; simpl;
    constructor; auto.
Qed.

Lemma step_ok (target_dir : string) (i : nat) (p p' : pool W) :
  Forall task_ok (tasks p) ->
  step E target_dir i p = Some p' ->
  Forall task_ok (tasks p').
Proof.
  intros Hok Hstep. unfold step in Hstep.
  destruct (nth_error (tasks p) i) as [[r|r|res|e]|]; try discriminate.
  - destruct (0 <? sem_value p)%Z; [|discriminate].
    injection Hstep as <-. apply Forall_set_nth; [assumption | exact I].
  - destruct (clone_or_update_repo_well_formed target_dir r (pool_state p))
      as (res & s' & Hrun & Hwf).
    rewrite Hrun in Hstep. injection Hstep as <-.
    apply Forall_set_nth; assumption.
Qed.

Lemma run_schedule_ok (target_dir : string) (sched : list nat) :
  forall p, Forall task_ok (tasks p) ->
            Forall task_ok (tasks (run_schedule E target_dir sched p)).
Proof.
  induction sched as [|i sched IH]; intros p Hok; simpl; [assumption|].
  destruct (step E target_dir i p) as [p'|] eqn:Hstep.
  - apply IH. eapply step_ok; eassumption.
  - apply IH. assumption.
Qed.

Lemma initial_pool_ok (cap : Z) (repos : list repo) (s : state W) :
  Forall task_ok (tasks (initial_pool cap repos s)).
Proof.
  unfold initial_pool. cbn [tasks].
  induction repos; constructor; [exact I | assumption].
Qed.

Lemma collect_ok (ts : list task) :
  Forall task_ok ts ->
  match collect ts with
  | Return rs => Forall well_formed rs
  | Raise _ => False
  | Hang => True
  end.
Proof.
  induction 1 as [|t ts Ht _ IH]; cbn [collect]; [constructor|].
  destruct t as [r|r|res|e]; cbn [task_ok] in Ht.
  - destruct (collect ts); auto.
  - destruct (collect ts); auto.
  - destruct (collect ts); auto.
  - contradiction.
Qed.

(** [gather] never raises, and returns well-formed results. *)
Lemma gather_ok (target_dir : string) (sched : list nat) (cap : Z)
    (repos : list repo) (s : state W) :
  match fst (gather E target_dir sched cap repos s) with
  | Return rs => Forall well_formed rs
  | Raise _ => False
  | Hang => True
  end.
Proof.
  unfold gather. cbn [fst]. apply collect_ok, run_schedule_ok, initial_pool_ok.
Qed.

Lemma gather_results (target_dir : string) (sched : list nat) (cap : Z)
    (repos : list repo) (s : state W) (rs : list result) :
  (0 <= cap)%Z ->
  fst (gather E target_dir sched cap repos s) = Return rs ->
  Forall2 (result_for E target_dir) repos rs.
Proof.
  intros Hcap Hret. unfold gather in Hret. cbn [fst] in Hret.
  destruct (PoolFacts.initial_pool_inv E target_dir cap repos s Hcap)
    as (Hinv0 & _).
  destruct (PoolFacts.run_schedule_inv E target_dir cap repos sched _ Hinv0)
    as ((_ & _ & Hslots) & _).
  apply (PoolFacts.collect_returned E target_dir repos _ rs Hslots Hret).
Qed.

(** The enumeration runs no process. *)
Lemma fetch_all_repositories_spawns_nothing (fuel : nat) (s : state W) :
  spawned (snd (fetch_all_repositories E fuel s)) = spawned s.
Proof.
  unfold fetch_all_repositories, accumulate, bind.
  destruct (LoopFacts.personal_loop_trace E fuel [] None s)
    as (own & _ & Hsp & _).
  destruct (personal_loop E fuel [] None s) as [[[pool v]|e|] s1];
    cbn [fst snd] in *; try assumption.
  destruct (LoopFacts.for_orgs_trace E fuel (organizations v) pool s1)
    as (logs & _ & Hsp' & _).
  destruct (for_orgs E fuel (organizations v) pool s1) as [[pool2|e|] s2];
    cbn [fst snd ret] in *; congruence.
Qed.

Lemma make_target_dir_run (target_dir : string) (s : state W) :
  make_target_dir E target_dir s =
  (match fst (mkdir E (world s) target_dir) with
   | inl e => Raise e
   | inr _ => Return tt
   end,
   mkState (snd (mkdir E (world s) target_dir)) (username s) (requests s)
           (spawned s)).
Proof.
  unfold make_target_dir. destruct (mkdir E (world s) target_dir) as [r w'].
  reflexivity.
Qed.

(** [run], one statement after the other. *)
Lemma run_cases (token target_dir : string) (cap : Z) (fuel : nat)
    (sched : list nat) (s : state W) :
  run E token target_dir cap fuel sched s =
  if String.eqb token "YOUR_TOKEN_HERE" then (Return NoToken, s)
  else
    let s0 := mkState (snd (mkdir E (world s) target_dir)) (username s)
                      (requests s) (spawned s) in
    match fst (mkdir E (world s) target_dir) with
    | inl e => (Raise e, s0)
    | inr _ =>
        match fetch_all_repositories E fuel s0 with
        | (Return [], s1) => (Return NoRepositories, s1)
        | (Return repos, s1) =>
            if (cap <? 0)%Z then
              (Raise (Exception "Semaphore initial value must be >= 0"), s1)
            else
              match gather E target_dir sched cap repos s1 with
              | (Return rs, s2) =>
                  (Return (Synced rs (print_summary rs)), s2)
              | (Raise e, s2) => (Raise e, s2)
              | (Hang, s2) => (Hang, s2)
              end
        | (Raise e, s1) => (Raise e, s1)
        | (Hang, s1) => (Hang, s1)
        end
    end.
Proof.
  unfold run. destruct (String.eqb token "YOUR_TOKEN_HERE"); [reflexivity|].
  unfold bind at 1. rewrite make_target_dir_run. cbv zeta.
  destruct (fst (mkdir E (world s) target_dir)) as [e|[]]; [reflexivity|].
  unfold bind at 1.
  destruct (fetch_all_repositories E fuel _) as [[[|r0 repos]|e|] s1];
    try reflexivity.
  unfold bind at 1, Semaphore.
  destruct (cap <? 0)%Z; [reflexivity|].
  unfold ret at 1. unfold bind at 1.
  destruct (gather E target_dir sched cap (r0 :: repos) s1) as [[rs|e|] s2];
    reflexivity.
Qed.

End Facts.

End RunFacts.

(** X12.  Whenever [run] raises, no git command has been run: the
    exception comes from creating the target directory, from the
    enumeration, or from a negative concurrency limit met after a
    non-empty enumeration.  A failing sync never makes [run] raise. *)
Theorem X12_run_raises_before_any_sync {W : Type} (E : Env W)
    (token target_dir : string) (MAX_CONCURRENT_CLONES : Z) (fuel : nat)
    (sched : list nat) (s : state W) (e : exn) :
  let out := run E token target_dir MAX_CONCURRENT_CLONES fuel sched s in
  fst out = Raise e ->
  spawned (snd out) = spawned s /\
  (fst (mkdir E (world s) target_dir) = inl e \/
   (exists s0,
      make_target_dir E target_dir s = (Return tt, s0) /\
      fst (fetch_all_repositories E fuel s0) = Raise e) \/
   (exists s0 repos,
      make_target_dir E target_dir s = (Return tt, s0) /\
      fst (fetch_all_repositories E fuel s0) = Return repos /\
      repos <> [] /\ (MAX_CONCURRENT_CLONES < 0)%Z /\
      e = Exception "Semaphore initial value must be >= 0")).
Proof.
  cbv zeta. rewrite RunFacts.run_cases. cbv zeta.
  destruct (String.eqb token "YOUR_TOKEN_HERE"); [intros H; discriminate H|].
  rewrite RunFacts.make_target_dir_run.
  set (s0 := mkState _ _ _ _).
  assert (Hsp0 : spawned s0 = spawned s) by reflexivity.
  destruct (fst (mkdir E (world s) target_dir)) as [e0|[]] eqn:Hmk.
  - cbn [fst snd]. intros [= ->]. split; [assumption|]. left. reflexivity.
  - assert (Hmake : make_target_dir E target_dir s = (Return tt, s0))
      by (rewrite RunFacts.make_target_dir_run, Hmk; reflexivity).
    clearbody s0.
    pose proof (RunFacts.fetch_all_repositories_spawns_nothing E fuel s0) as Hsp1.
    destruct (fetch_all_repositories E fuel s0) as [[repos|e1|] s1] eqn:Hfetch;
      cbn [fst snd] in *.
    + destruct repos as [|r0 repos]; [intros H; discriminate H|].
      destruct (MAX_CONCURRENT_CLONES <? 0)%Z eqn:Hneg.
      * cbn [fst snd]. intros [= <-].
        split; [congruence|]. right; right.
        exists s0, (r0 :: repos).
        split; [first [exact Hmake | reflexivity]|].
        split; [rewrite ?Hfetch; reflexivity|].
        split; [discriminate|].
        split; [apply Z.ltb_lt; assumption | reflexivity].
      * pose proof (RunFacts.gather_ok E target_dir sched
                      MAX_CONCURRENT_CLONES (r0 :: repos) s1) as Hg.
        destruct (gather E target_dir sched MAX_CONCURRENT_CLONES
                    (r0 :: repos) s1) as [[rs|e2|] s2];
          cbn [fst snd] in *; try contradiction;
          intros H; discriminate H.
    + intros [= <-]. split; [congruence|]. right; left.
      exists s0.
      split; [first [exact Hmake | reflexivity] | rewrite ?Hfetch; reflexivity].
    + intros H; discriminate H.
Qed.

(** Witness of X12: the forge with the outage; the exception comes
    from the enumeration and nothing has been spawned. *)
Lemma X12_witness :
  spawned (snd (run Scenario.outage_env "ghp_token" "backup" 2 5
                  Scenario.round_robin (initial_state 0))) = [].
Proof.
  apply (proj1 (X12_run_raises_before_any_sync Scenario.outage_env
                  "ghp_token" "backup" 2 5 Scenario.round_robin
                  (initial_state 0)
                  (Exception "GraphQL query failed: 502")
                  ltac:(vm_compute; reflexivity))).
Defined.

(** X13.  Whenever [run] returns after a sync, the enumeration had
    returned a non-empty list and the sync produced exactly one
    result per descriptor of that list, in order, each under the
    descriptor's full name and local path, with a status of the
    enumeration and an error detail exactly on failure; the summary
    printed is the summary of those results and its three counts add
    up to the number of descriptors. *)
Theorem X13_run_reports_every_descriptor {W : Type} (E : Env W)
    (token target_dir : string) (MAX_CONCURRENT_CLONES : Z) (fuel : nat)
    (sched : list nat) (s : state W) (results : list result)
    (printed : summary) :
  fst (run E token target_dir MAX_CONCURRENT_CLONES fuel sched s)
  = Return (Synced results printed) ->
  exists s0 s1 repos,
    make_target_dir E target_dir s = (Return tt, s0) /\
    fetch_all_repositories E fuel s0 = (Return repos, s1) /\
    repos <> [] /\
    Forall2 (result_for E target_dir) repos results /\
    Forall well_formed results /\
    printed = print_summary results /\
    cloned printed + updated printed + failed printed = List.length repos /\
    Forall2 failure_line (filter is_failure results) (failures printed).
Proof.
  rewrite RunFacts.run_cases. cbv zeta.
  destruct (String.eqb token "YOUR_TOKEN_HERE"); [intros H; discriminate H|].
  rewrite RunFacts.make_target_dir_run.
  set (s0 := mkState _ _ _ _).
  destruct (fst (mkdir E (world s) target_dir)) as [e0|[]] eqn:Hmk;
    [intros H; discriminate H|].
  destruct (fetch_all_repositories E fuel s0) as [[repos|e1|] s1] eqn:Hfetch;
    try (intros H; discriminate H).
  destruct repos as [|r0 repos]; [intros H; discriminate H|].
  destruct (MAX_CONCURRENT_CLONES <? 0)%Z eqn:Hneg;
    [intros H; discriminate H|].
  pose proof (RunFacts.gather_ok E target_dir sched
                MAX_CONCURRENT_CLONES (r0 :: repos) s1) as Hwf.
  pose proof (RunFacts.gather_results E target_dir sched
                MAX_CONCURRENT_CLONES (r0 :: repos) s1) as Hres.
  destruct (gather E target_dir sched MAX_CONCURRENT_CLONES (r0 :: repos) s1)
    as [[rs|e2|] s2]; cbn [fst snd] in *; try (intros H; discriminate H).
  intros [= <- <-].
  apply Z.ltb_ge in Hneg. specialize (Hres rs Hneg eq_refl).
  exists s0, s1, (r0 :: repos).
  assert (Hmake : make_target_dir E target_dir s = (Return tt, s0))
    by (rewrite RunFacts.make_target_dir_run, Hmk; reflexivity).
  split; [first [exact Hmake | reflexivity]|].
  split; [first [exact Hfetch | reflexivity]|].
  refine (conj _ (conj Hres (conj Hwf (conj eq_refl (conj _ _))))).
  - discriminate.
  - rewrite (Forall2_length Hres).
    apply (proj1 (proj2 (proj2 (proj2 (SummaryFacts.summary_spec rs))))).
    apply Forall_forall. intros r Hr.
    apply (proj1 (proj1 (Forall_forall _ _) Hwf r Hr)).
  - apply (proj1 (proj2 (proj2 (proj2 (proj2 (SummaryFacts.summary_spec rs)))))).
    apply Forall_forall. intros r Hr. apply filter_In in Hr.
    destruct Hr as (Hin & Hfail).
    destruct (proj1 (Forall_forall _ _) Hwf r Hin) as (Hst & Herr).
    apply Herr. unfold is_failure in Hfail.
    destruct Hst as [Hs|[Hs|[Hs|[Hs|[Hs|[]]]]]]; rewrite <- Hs in *;
      cbn in Hfail; try discriminate Hfail; cbn; tauto.
Qed.

(** Witness of X13: the mirror run. *)
Lemma X13_witness :
  exists s0 s1 repos,
    make_target_dir Scenario.mirror_env "backup" (initial_state Scenario.mirror_disk)
    = (Return tt, s0) /\
    fetch_all_repositories Scenario.mirror_env 5 s0 = (Return repos, s1) /\
    List.length repos = 3.
Proof.
  destruct (X13_run_reports_every_descriptor Scenario.mirror_env "ghp_token"
              "backup" 2 5 Scenario.round_robin
              (initial_state Scenario.mirror_disk)
              [mkResult "a/x" "updated" "backup/x" None;
               mkResult "a/y" "clone_failed" "backup/y"
                        (Some "fatal: repository not found");
               mkResult "b/x" "updated" "backup/x" None]
              (mkSummary 0 2 1 [("a/y", "fatal: repository not found")])
              ltac:(vm_compute; reflexivity))
    as (s0 & s1 & repos & Hmk & Hfetch & _ & Hres & _).
  exists s0, s1, repos. split; [exact Hmk|]. split; [exact Hfetch|].
  rewrite (Forall2_length Hres). reflexivity.
Defined.

(** ** The semaphore *)

Lemma in_flight_done (ts : list task) : remaining ts = 0 -> in_flight ts = 0.
Proof.
  unfold in_flight, count_if.
  induction ts as [|t ts IH]; [reflexivity|].
  destruct t; cbn; intros H; try lia; apply IH; lia.
Qed.

(** X14.  The semaphore is given back exactly once per sync: with a
    concurrency limit that is not negative, under every schedule the
    counter stays between zero and the limit and, added to the number
    of syncs in flight, always makes the limit; once [gather] returns
    the counter is back at the limit. *)
Theorem X14_semaphore_is_given_back {W : Type} (E : Env W)
    (target_dir : string) (cap : Z) (repos : list repo) (s : state W)
    (sched : list nat) :
  (0 <= cap)%Z ->
  let p := run_schedule E target_dir sched (initial_pool cap repos s) in
  (0 <= sem_value p <= cap)%Z /\
  (sem_value p + Z.of_nat (in_flight (tasks p)) = cap)%Z /\
  (forall rs, fst (gather E target_dir sched cap repos s) = Return rs ->
     sem_value p = cap /\ in_flight (tasks p) = 0).
Proof.
  intros Hcap p.
  destruct (PoolFacts.initial_pool_inv E target_dir cap repos s Hcap)
    as (Hinv0 & _).
  destruct (PoolFacts.run_schedule_inv E target_dir cap repos sched _ Hinv0)
    as ((Hsem & Hsum & Hslots) & _).
  fold p in Hsem, Hsum, Hslots.
  split; [lia|]. split; [exact Hsum|].
  intros rs Hret. unfold gather in Hret. cbn [fst] in Hret. fold p in Hret.
  destruct (PoolFacts.collect_returned E target_dir repos _ rs Hslots Hret)
    as (Hrem & _).
  pose proof (in_flight_done _ Hrem) as Hfl. split; [lia | exact Hfl].
Qed.

(** Witness of X14: the three descriptors of the mirror under a limit
    of two, run to the end. *)
Lemma X14_witness :
  sem_value (run_schedule Scenario.mirror_env "backup" Scenario.round_robin
               (initial_pool 2 [Scenario.a_x; Scenario.a_y; Scenario.b_x]
                  (initial_state Scenario.mirror_disk))) = 2%Z.
Proof.
  destruct (X14_semaphore_is_given_back Scenario.mirror_env "backup" 2
              [Scenario.a_x; Scenario.a_y; Scenario.b_x]
              (initial_state Scenario.mirror_disk) Scenario.round_robin
              ltac:(lia)) as (_ & _ & Hback).
  apply (Hback [mkResult "a/x" "updated" "backup/x" None;
                mkResult "a/y" "clone_failed" "backup/y"
                         (Some "fatal: repository not found");
                mkResult "b/x" "updated" "backup/x" None]).
  vm_compute. reflexivity.
Defined.

(** ** The missing token *)

(** X15.  With the placeholder as its token [run] returns at once,
    after the notice about the token: it posts no request, creates no
    directory and runs no process.  With any other token it never
    returns that way. *)
Theorem X15_missing_token {W : Type} (E : Env W)
    (token target_dir : string) (MAX_CONCURRENT_CLONES : Z) (fuel : nat)
    (sched : list nat) (s : state W) :
  let out := run E token target_dir MAX_CONCURRENT_CLONES fuel sched s in
  (token = "YOUR_TOKEN_HERE" -> out = (Return NoToken, s)) /\
  (fst out = Return NoToken -> token = "YOUR_TOKEN_HERE").
Proof.
  cbv zeta. rewrite RunFacts.run_cases. cbv zeta. split.
  - intros ->. reflexivity.
  - destruct (String.eqb_spec token "YOUR_TOKEN_HERE") as [Heq|Hne];
      [intros _; exact Heq|].
    destruct (fst (mkdir E (world s) target_dir)) as [e|[]];
      [intros H; discriminate H|].
    destruct (fetch_all_repositories E fuel _) as [[[|r0 repos]|e|] s1];
      try (intros H; discriminate H).
    destruct (MAX_CONCURRENT_CLONES <? 0)%Z; [intros H; discriminate H|].
    destruct (gather E target_dir sched MAX_CONCURRENT_CLONES (r0 :: repos) s1)
      as [[rs|e|] s2]; intros H; discriminate H.
Qed.

(** Witness of X15: the mirror, with the placeholder for a token. *)
Lemma X15_witness :
  run Scenario.mirror_env "YOUR_TOKEN_HERE" "backup" 8 5 Scenario.round_robin
      (initial_state Scenario.mirror_disk)
  = (Return NoToken, initial_state Scenario.mirror_disk).
Proof.
  apply (proj1 (X15_missing_token Scenario.mirror_env "YOUR_TOKEN_HERE"
                  "backup" 8 5 Scenario.round_robin
                  (initial_state Scenario.mirror_disk)) eq_refl).
Defined.

(** ** Nothing to sync *)

(** X16.  When the enumeration returns an empty list, [run] returns
    without creating the semaphore or running a process, whatever the
    concurrency limit. *)
Theorem X16_nothing_to_sync {W : Type} (E : Env W)
    (token target_dir : string) (MAX_CONCURRENT_CLONES : Z) (fuel : nat)
    (sched : list nat) (s s0 s1 : state W) :
  String.eqb token "YOUR_TOKEN_HERE" = false ->
  make_target_dir E target_dir s = (Return tt, s0) ->
  fetch_all_repositories E fuel s0 = (Return [], s1) ->
  run E token target_dir MAX_CONCURRENT_CLONES fuel sched s
  = (Return NoRepositories, s1) /\
  spawned s1 = spawned s.
Proof.
  intros Htok Hmake Hfetch.
  assert (Hrun : run E token target_dir MAX_CONCURRENT_CLONES fuel sched s
                 = (Return NoRepositories, s1)).
  { rewrite RunFacts.run_cases, Htok. cbv zeta.
    rewrite RunFacts.make_target_dir_run in Hmake.
    destruct (fst (mkdir E (world s) target_dir)) as [e|[]];
      [discriminate Hmake|].
    injection Hmake as Hs0. rewrite Hs0, Hfetch. reflexivity. }
  split; [exact Hrun|].
  pose proof (RunFacts.fetch_all_repositories_spawns_nothing E fuel s0) as Hsp.
  rewrite Hfetch in Hsp. cbn [snd] in Hsp. rewrite Hsp.
  rewrite RunFacts.make_target_dir_run in Hmake.
  injection Hmake as _ <-. reflexivity.
Qed.

(** Witness of X16: the forge without repositories, and a negative
    concurrency limit. *)
Lemma X16_witness :
  fst (run Edge.nothing_env "ghp_token" "backup" (-1) 5 [] (initial_state []))
  = Return NoRepositories.
Proof.
  destruct (X16_nothing_to_sync Edge.nothing_env "ghp_token" "backup" (-1) 5 []
              (initial_state []) _ _ eq_refl
              ltac:(vm_compute; reflexivity) ltac:(vm_compute; reflexivity))
    as (Hrun & _).
  rewrite Hrun. reflexivity.
Defined.

(** ** The commands of the sync phase *)

Module CommandFacts.

Section Commands.

Context {W : Type} (E : Env W) (target_dir : string).

Lemma step_commands (cap : Z) (repos : list repo) (i : nat) (p p' : pool W) :
  pool_inv E target_dir cap repos p ->
  step E target_dir i p = Some p' ->
  exists new,
    spawned (pool_state p') = spawned (pool_state p) ++ new /\
    requests (pool_state p') = requests (pool_state p) /\
    commands_within E target_dir repos new.
Proof.
  intros (_ & _ & Hslots) Hstep. unfold step in Hstep.
  destruct (nth_error (tasks p) i) as [[r|r|res|e]|] eqn:Hnth;
    try discriminate.
  - destruct (0 <? sem_value p)%Z; [|discriminate].
    injection Hstep as <-. exists []. cbn [pool_state].
    rewrite app_nil_r. repeat split. constructor.
  - destruct (PoolFacts.Forall2_nth_error_r _ _ _ Hslots _ _ Hnth)
      as (r' & Hr' & Hfor).
    assert (r' = r).
    { destruct Hfor as [Hf|[Hf|(res & Hf & _)]]; congruence. }
    subst r'. apply nth_error_In in Hr'.
    destruct (clone_or_update_repo_returns E target_dir r (pool_state p))
      as (res & s' & new & Hrun & Hsp & _ & Hreq & _ & _ & Hcmd).
    rewrite Hrun in Hstep. injection Hstep as <-. cbn [pool_state].
    exists new. refine (conj Hsp (conj Hreq _)).
    apply Forall_forall. intros [c o] Hin. exists r. split; [assumption|].
    exact (Hcmd c o Hin).
Qed.

Lemma run_schedule_commands (cap : Z) (repos : list repo)
    (sched : list nat) :
  forall p,
    pool_inv E target_dir cap repos p ->
    exists new,
      spawned (pool_state (run_schedule E target_dir sched p))
        = spawned (pool_state p) ++ new /\
      requests (pool_state (run_schedule E target_dir sched p))
        = requests (pool_state p) /\
      commands_within E target_dir repos new.
Proof.
  induction sched as [|i sched IH]; intros p Hinv; cbn [run_schedule].
  - exists []. rewrite app_nil_r. repeat split. constructor.
  - destruct (step E target_dir i p) as [p'|] eqn:Hstep; [|apply IH; assumption].
    destruct (step_commands cap repos i p p' Hinv Hstep)
      as (new1 & Hsp1 & Hreq1 & Hc1).
    destruct (PoolFacts.step_inv E target_dir cap repos i p p' Hinv Hstep)
      as (Hinv' & _).
    destruct (IH p' Hinv') as (new2 & Hsp2 & Hreq2 & Hc2).
    exists (new1 ++ new2). rewrite Hsp2, Hsp1, Hreq2, Hreq1, app_assoc.
    repeat split. apply Forall_app. split; assumption.
Qed.

End Commands.

End CommandFacts.

(** X17.  Under every schedule the sync phase runs nothing but the
    fetch, pull and clone commands of the descriptors it was given,
    each on the local path of its descriptor and cloning from its
    [sshUrl]; and it posts no request. *)
Theorem X17_sync_runs_only_its_commands {W : Type} (E : Env W)
    (target_dir : string) (cap : Z) (repos : list repo) (s : state W)
    (sched : list nat) :
  (0 <= cap)%Z ->
  let after := snd (gather E target_dir sched cap repos s) in
  exists new,
    spawned after = spawned s ++ new /\
    requests after = requests s /\
    commands_within E target_dir repos new.
Proof.
  intros Hcap after. subst after. unfold gather. cbn [snd].
  destruct (PoolFacts.initial_pool_inv E target_dir cap repos s Hcap)
    as (Hinv0 & _).
  apply (CommandFacts.run_schedule_commands E target_dir cap repos sched _ Hinv0).
Qed.

(** Witness of X17: the mirror under a limit of two. *)
Lemma X17_witness :
  exists new,
    spawned (snd (gather Scenario.mirror_env "backup" Scenario.round_robin 2
                    [Scenario.a_x; Scenario.a_y; Scenario.b_x]
                    (initial_state Scenario.mirror_disk)))
    = [] ++ new /\
    commands_within Scenario.mirror_env "backup"
      [Scenario.a_x; Scenario.a_y; Scenario.b_x] new.
Proof.
  destruct (X17_sync_runs_only_its_commands Scenario.mirror_env "backup" 2
              [Scenario.a_x; Scenario.a_y; Scenario.b_x]
              (initial_state Scenario.mirror_disk) Scenario.round_robin
              ltac:(lia)) as (new & Hsp & _ & Hc).
  exists new. split; [exact Hsp | exact Hc].
Defined.
